(** * Ethiopia Tender Watcher: a shallow embedding of [main.py]

    The watcher is a single-threaded batch job: it scrapes two tender
    listings, keeps the anchors that mention a configured keyword, drops the
    ones whose fingerprint is already in the persisted state, records the new
    ones, trims the state to ninety days and mails a digest or a daily
    heartbeat.

    Modelling conventions.
    - A Python [str] is a [string]: the sequence of the bytes of its UTF-8
      encoding.  [str.encode("utf-8")] is therefore the list of its
      characters.  [str.lower], [str.strip] and [str.splitlines] are modelled
      on ASCII text, where they are exact; on other text Python also lowers
      letters outside A..Z (not always one character to one), strips
      Unicode spaces and cuts lines at U+0085, U+2028 and U+2029, which the
      model does not.  A statement that depends on which letters are
      lowered, which characters are stripped or where lines are cut
      therefore takes ASCII text ([ascii_only]) as a hypothesis.
    - A [dict] is a [gmap], a [set] a [gset]; a notice is a [dict] from field
      name to text, the state a [dict] from key to timestamp.
    - Epoch timestamps ([time.time()]) are read at whole seconds, in [Z].
    - [raise] and [try ... except Exception] are the [result] type; code that
      talks to the network runs in a small state-and-exception monad.
    - What the program does not decide is an input of its model: the replies
      of the network, the values of [random.random()], the readings of the
      clock, the outcome of the SMTP session, the offset of the local time
      zone, the anchors a page parses to. *)

From Stdlib Require Import ZArith List String Ascii QArith Lia Lqa.
From stdpp Require Import gmap strings list pretty finite.

Local Open Scope string_scope.
Local Open Scope Z_scope.

(* ===================================================================== *)
(** * Text: the [str] methods the program uses *)
(* ===================================================================== *)

(** [str.encode("utf-8")]: the bytes of a text, and back. *)
Fixpoint encode_utf8 (s : string) : list ascii :=
  match s with
  | EmptyString => []
  | String c r => c :: encode_utf8 r
  end.

Fixpoint decode_utf8 (l : list ascii) : string :=
  match l with
  | [] => EmptyString
  | c :: r => String c (decode_utf8 r)
  end.

Definition code (c : ascii) : Z := Z.of_N (N_of_ascii c).
Definition chr (z : Z) : ascii := ascii_of_N (Z.to_N (z mod 256)).

(** [c.lower()] for one ASCII character: the letters A..Z move down by 32. *)
Definition lower_char (c : ascii) : ascii :=
  if (65 <=? code c) && (code c <=? 90) then chr (code c + 32) else c.

(** [s.lower()], for ASCII [s]. *)
Fixpoint lower (s : string) : string :=
  match s with
  | EmptyString => EmptyString
  | String c r => String (lower_char c) (lower r)
  end.

(** [t.startswith(k)] *)
Fixpoint startswith (k t : string) : bool :=
  match k, t with
  | EmptyString, _ => true
  | String _ _, EmptyString => false
  | String a k', String b t' => if Ascii.eqb a b then startswith k' t' else false
  end.

(** [k in t]: [k] occurs in [t] as a contiguous run of characters. *)
Fixpoint contains (k t : string) : bool :=
  startswith k t ||
  match t with
  | EmptyString => false
  | String _ t' => contains k t'
  end.

(** The characters [str.strip()] removes and the ones [str.splitlines()]
    cuts at, in the ASCII range: tab, line feed, vertical tab, form feed,
    carriage return, the separators 28 to 31 and the space for the first;
    the same without the unit separator 31 and the space for the second. *)
Definition is_space (c : ascii) : bool :=
  let n := code c in
  ((9 <=? n) && (n <=? 13)) || ((28 <=? n) && (n <=? 32)).

Definition is_linebreak (c : ascii) : bool :=
  let n := code c in
  ((10 <=? n) && (n <=? 13)) || ((28 <=? n) && (n <=? 30)).

(** [s.lstrip()], for ASCII [s]. *)
Fixpoint lstrip (s : string) : string :=
  match s with
  | EmptyString => EmptyString
  | String c r => if is_space c then lstrip r else s
  end.

(** [s.rstrip()], for ASCII [s]: a character is kept when it is not a
    space or something is kept after it. *)
Fixpoint rstrip (s : string) : string :=
  match s with
  | EmptyString => EmptyString
  | String c r =>
      match rstrip r with
      | EmptyString => if is_space c then EmptyString else String c EmptyString
      | r' => String c r'
      end
  end.

(** [s.strip()], for ASCII [s]. *)
Definition strip (s : string) : string := rstrip (lstrip s).

(** [s.splitlines()], for ASCII [s]: [cur] is the line being read,
    reversed.  A carriage return followed by a line feed is one boundary;
    text after the last boundary is a line only when it is not empty. *)
Fixpoint splitlines_from (cur : string) (s : string) : list string :=
  match s with
  | EmptyString =>
      match cur with EmptyString => [] | _ => [String.rev cur] end
  | String c r =>
      if is_linebreak c then
        String.rev cur ::
          match r with
          | String d r' =>
              if (code c =? 13) && (code d =? 10)
              then splitlines_from EmptyString r'
              else splitlines_from EmptyString r
          | EmptyString => []
          end
      else splitlines_from (String c cur) r
  end.

Definition splitlines (s : string) : list string := splitlines_from EmptyString s.

(* ===================================================================== *)
(** * SHA-256 ([hashlib.sha256]), FIPS 180-4, on 32-bit words in [Z] *)
(* ===================================================================== *)

Module Sha256.

Definition mask32 : Z := 0xFFFFFFFF.
Definition wrap (x : Z) : Z := Z.land x mask32.
Definition add32 (x y : Z) : Z := wrap (x + y).
Definition not32 (x : Z) : Z := Z.lxor x mask32.
Definition shr (n x : Z) : Z := Z.shiftr x n.
Definition rotr (n x : Z) : Z := Z.lor (Z.shiftr x n) (wrap (Z.shiftl x (32 - n))).

Definition Ch (x y z : Z) : Z := Z.lxor (Z.land x y) (Z.land (not32 x) z).
Definition Maj (x y z : Z) : Z :=
  Z.lxor (Z.lxor (Z.land x y) (Z.land x z)) (Z.land y z).
Definition bsig0 (x : Z) : Z := Z.lxor (Z.lxor (rotr 2 x) (rotr 13 x)) (rotr 22 x).
Definition bsig1 (x : Z) : Z := Z.lxor (Z.lxor (rotr 6 x) (rotr 11 x)) (rotr 25 x).
Definition ssig0 (x : Z) : Z := Z.lxor (Z.lxor (rotr 7 x) (rotr 18 x)) (shr 3 x).
Definition ssig1 (x : Z) : Z := Z.lxor (Z.lxor (rotr 17 x) (rotr 19 x)) (shr 10 x).

(** The round constants and the initial hash value. *)
Definition K : list Z :=
  [ 0x428A2F98; 0x71374491; 0xB5C0FBCF; 0xE9B5DBA5;
    0x3956C25B; 0x59F111F1; 0x923F82A4; 0xAB1C5ED5;
    0xD807AA98; 0x12835B01; 0x243185BE; 0x550C7DC3;
    0x72BE5D74; 0x80DEB1FE; 0x9BDC06A7; 0xC19BF174;
    0xE49B69C1; 0xEFBE4786; 0x0FC19DC6; 0x240CA1CC;
    0x2DE92C6F; 0x4A7484AA; 0x5CB0A9DC; 0x76F988DA;
    0x983E5152; 0xA831C66D; 0xB00327C8; 0xBF597FC7;
    0xC6E00BF3; 0xD5A79147; 0x06CA6351; 0x14292967;
    0x27B70A85; 0x2E1B2138; 0x4D2C6DFC; 0x53380D13;
    0x650A7354; 0x766A0ABB; 0x81C2C92E; 0x92722C85;
    0xA2BFE8A1; 0xA81A664B; 0xC24B8B70; 0xC76C51A3;
    0xD192E819; 0xD6990624; 0xF40E3585; 0x106AA070;
    0x19A4C116; 0x1E376C08; 0x2748774C; 0x34B0BCB5;
    0x391C0CB3; 0x4ED8AA4A; 0x5B9CCA4F; 0x682E6FF3;
    0x748F82EE; 0x78A5636F; 0x84C87814; 0x8CC70208;
    0x90BEFFFA; 0xA4506CEB; 0xBEF9A3F7; 0xC67178F2 ].

Record hash8 := Hash8 { ha : Z; hb : Z; hc : Z; hd : Z; he : Z; hf : Z; hg : Z; hh : Z }.

Definition H_init : hash8 :=
  Hash8 0x6A09E667 0xBB67AE85 0x3C6EF372 0xA54FF53A
        0x510E527F 0x9B05688C 0x1F83D9AB 0x5BE0CD19.

(** Padding: a 1 bit, zeros up to 56 modulo 64 bytes, the bit length on 8
    bytes, big-endian. *)
Fixpoint be_bytes (n : nat) (x : Z) : list Z :=
  match n with
  | O => []
  | S n' => Z.land (Z.shiftr x (8 * Z.of_nat n')) 255 :: be_bytes n' x
  end.

Definition pad (msg : list Z) : list Z :=
  let len := Z.of_nat (length msg) in
  let zeros := Z.to_nat ((55 - len) mod 64) in
  msg ++ [128] ++ repeat 0 zeros ++ be_bytes 8 (8 * len).

(** Big-endian words of a byte list (four bytes each). *)
Fixpoint be_words (fuel : nat) (l : list Z) : list Z :=
  match fuel, l with
  | S fuel', b0 :: b1 :: b2 :: b3 :: r =>
      (Z.shiftl b0 24 + Z.shiftl b1 16 + Z.shiftl b2 8 + b3) :: be_words fuel' r
  | _, _ => []
  end.

Definition word_at (W : list Z) (t : nat) : Z := nth t W 0.

(** The message schedule: [n] more words after the ones in [W]. *)
Fixpoint schedule (n : nat) (W : list Z) : list Z :=
  match n with
  | O => W
  | S n' =>
      let t := length W in
      let wt := add32 (add32 (add32 (ssig1 (word_at W (t - 2))) (word_at W (t - 7)))
                             (ssig0 (word_at W (t - 15)))) (word_at W (t - 16)) in
      schedule n' (W ++ [wt])
  end.

Definition round (s : hash8) (kw : Z * Z) : hash8 :=
  let '(k, w) := kw in
  let t1 := add32 (add32 (add32 (add32 (hh s) (bsig1 (he s))) (Ch (he s) (hf s) (hg s))) k) w in
  let t2 := add32 (bsig0 (ha s)) (Maj (ha s) (hb s) (hc s)) in
  Hash8 (add32 t1 t2) (ha s) (hb s) (hc s) (add32 (hd s) t1) (he s) (hf s) (hg s).

Definition compress (H : hash8) (block : list Z) : hash8 :=
  let W := schedule 48 (be_words 16 block) in
  let s := fold_left round (combine K W) H in
  Hash8 (add32 (ha H) (ha s)) (add32 (hb H) (hb s)) (add32 (hc H) (hc s))
        (add32 (hd H) (hd s)) (add32 (he H) (he s)) (add32 (hf H) (hf s))
        (add32 (hg H) (hg s)) (add32 (hh H) (hh s)).

Fixpoint blocks (fuel : nat) (H : hash8) (l : list Z) : hash8 :=
  match fuel, l with
  | S fuel', _ :: _ => blocks fuel' (compress H (firstn 64 l)) (skipn 64 l)
  | _, _ => H
  end.

Definition words_of (H : hash8) : list Z :=
  [ha H; hb H; hc H; hd H; he H; hf H; hg H; hh H].

(** [hashlib.sha256(data).digest()]: thirty-two bytes. *)
Definition digest (data : list ascii) : list ascii :=
  let padded := pad (map code data) in
  let H := blocks (length padded) H_init padded in
  map chr (flat_map (be_bytes 4) (words_of H)).

Definition hex_digit (n : Z) : ascii :=
  if n <? 10 then chr (48 + n) else chr (87 + n).

Definition hex_of_byte (c : ascii) : list ascii :=
  [hex_digit (code c / 16); hex_digit (code c mod 16)].

(** [hashlib.sha256(data).hexdigest()] *)
Definition hexdigest (data : list ascii) : string :=
  decode_utf8 (flat_map hex_of_byte (digest data)).

End Sha256.

(** [uid_hash]: the SHA-256 of the four fields joined by a bar. *)
Definition uid_preimage (title buyer deadline url : string) : string :=
  title +:+ "|" +:+ buyer +:+ "|" +:+ deadline +:+ "|" +:+ url.

Definition uid_hash (title buyer deadline url : string) : string :=
  Sha256.hexdigest (encode_utf8 (uid_preimage title buyer deadline url)).

(* ===================================================================== *)
(** * Configuration, exceptions, keywords *)
(* ===================================================================== *)

(** What [Exception] the program can meet. *)
Inductive exn :=
| RequestException (why : string)   (* requests: connection error, timeout *)
| HTTPError (status : Z)            (* Response.raise_for_status *)
| SMTPException (why : string)      (* smtplib *)
| TypeError                         (* raise None *)
| OtherError (why : string).

Inductive result (A : Type) :=
| Ok (a : A)
| Raise (e : exn).
Arguments Ok {A} a.
Arguments Raise {A} e.

(** The module-level constants read from the environment when the module is
    loaded.  The keyword set, loaded at the same time, is passed on its own
    as [KEYWORDS]. *)
Record config := Config {
  ALERT_TO : string;
  SMTP_HOST : string;
  SMTP_PORT : Z;
  SMTP_USER : option string;
  SMTP_PASS : option string;
  HEARTBEAT_HOUR_UTC : Z;
  HEARTBEAT_ENABLE : bool
}.

Definition TIMEOUT : Z := 30.
Definition RETRY_MAX : Z := 3.
Definition RETRY_BASE_SLEEP : Z := 3.

Definition default_keywords : list string :=
  [ "software"; "web"; "website"; "mobile"; "app"; "android"; "ios"; "erp"; "crm"; "api";
    "devops"; "security"; "cybersecurity"; "waf"; "pam"; "observability"; "itsm";
    "integration"; "database"; "ai"; "machine learning"; "cloud"; "portal"; "digital"; "ict" ].

(** Python truth value of a [str]. *)
Definition nonempty (s : string) : bool :=
  match s with EmptyString => false | String _ _ => true end.

(** [load_keywords]: [file] is the text [read_text(encoding="utf-8")] gives
    for [config/keywords.txt], [None] when the file does not exist.  (A
    file that is not valid UTF-8 makes [read_text] raise while the module
    is loaded: no function of the program then runs.)  The lines are cut,
    stripped and lowered by the ASCII model of the three [str] methods, so
    the keywords are those of the program when the file is ASCII text. *)
Definition load_keywords (file : option string) : list string :=
  match file with
  | Some content =>
      map (fun ln => lower (strip ln))
          (List.filter (fun ln => nonempty (strip ln)) (splitlines content))
  | None => default_keywords
  end.

(** [KEYWORDS = set(load_keywords())] *)
Definition keyword_set (file : option string) : gset string :=
  list_to_set (load_keywords file).

(** [relevant_score]: one for every keyword of the set found in the lowered
    text.  ([text or ""] leaves a [str] as it is.) *)
Definition relevant_score (KEYWORDS : gset string) (text : string) : Z :=
  let t := lower text in
  Z.of_nat (length (List.filter (fun k => contains k t) (elements KEYWORDS))).

(* ===================================================================== *)
(** * The persisted state *)
(* ===================================================================== *)

(** [state/seen.json]: missing, unreadable as JSON, or a stored mapping from
    key to timestamp, which is what [save_state] writes.  A file that
    parses as JSON to something else (a list, a mapping with values that
    are not numbers) is not modelled: on it [run_cycle] raises before it
    saves anything, and the statements below say nothing about it. *)
Inductive state_file :=
| Absent
| Corrupt
| Stored (state : gmap string Z).

Definition load_state (f : state_file) : gmap string Z :=
  match f with
  | Stored state => state
  | Absent | Corrupt => ∅
  end.

Definition save_state (state : gmap string Z) : state_file := Stored state.

(* ===================================================================== *)
(** * HTTP fetcher *)
(* ===================================================================== *)

Record response := Response { status_code : Z; text : string }.

(** What the process does to the outside, in order. *)
Inductive event :=
| EvGet (url : string)
| EvSleep (seconds : Q).

(** The network side of the world: what the n-th [requests.get] of the run
    yields, the successive values of [random.random()], how many of each
    were used, and the events so far. *)
Record net := Net {
  net_reply : nat -> string -> result response;
  net_random : nat -> Q;
  net_gets : nat;
  net_randoms : nat;
  net_trace : list event
}.

(** A small state-and-exception monad over [net]. *)
Definition M (A : Type) : Type := net -> result A * net.

Definition ret {A} (a : A) : M A := fun w => (Ok a, w).
Definition raise {A} (e : exn) : M A := fun w => (Raise e, w).
Definition bind {A B} (m : M A) (k : A -> M B) : M B :=
  fun w => match m w with
           | (Ok a, w') => k a w'
           | (Raise e, w') => (Raise e, w')
           end.
(** [try: m  except Exception as e: h e] *)
Definition try_except {A} (m : M A) (h : exn -> M A) : M A :=
  fun w => match m w with
           | (Ok a, w') => (Ok a, w')
           | (Raise e, w') => h e w'
           end.
Definition lift {A} (r : result A) : M A := fun w => (r, w).

Notation "x <- m ;; k" := (bind m (fun x => k))
  (at level 63, m at next level, right associativity).
Notation "m ;;; k" := (bind m (fun _ => k))
  (at level 63, right associativity).

Definition requests_get (url : string) : M response :=
  fun w => (net_reply w (net_gets w) url,
            Net (net_reply w) (net_random w) (S (net_gets w)) (net_randoms w)
                (net_trace w ++ [EvGet url])).

(** [Response.raise_for_status]: raises on 4xx and 5xx. *)
Definition raise_for_status (r : response) : M unit :=
  if (400 <=? status_code r) && (status_code r <? 600)
  then raise (HTTPError (status_code r))
  else ret tt.

Definition random_random : M Q :=
  fun w => (Ok (net_random w (net_randoms w)),
            Net (net_reply w) (net_random w) (net_gets w) (S (net_randoms w)) (net_trace w)).

Definition time_sleep (seconds : Q) : M unit :=
  fun w => (Ok tt,
            Net (net_reply w) (net_random w) (net_gets w) (net_randoms w)
                (net_trace w ++ [EvSleep seconds])).

(** The body of [http_get]'s [for attempt in range(1, RETRY_MAX + 1)], over
    the attempt numbers still to come; after the loop, [raise last_exc]. *)
Fixpoint http_get_loop (attempts : list Z) (url : string) (last_exc : option exn)
  : M response :=
  match attempts with
  | [] =>
      match last_exc with
      | Some e => raise e
      | None => raise TypeError
      end
  | attempt :: rest =>
      fun w =>
        match (r <- requests_get url ;; raise_for_status r ;;; ret r) w with
        | (Ok r, w') => (Ok r, w')
        | (Raise e, w') =>
            (j <- random_random ;;
             let sleep := (inject_Z (RETRY_BASE_SLEEP * attempt) + j)%Q in
             time_sleep sleep ;;;
             http_get_loop rest url (Some e)) w'
        end
  end.

Definition http_get (url : string) : M response :=
  http_get_loop (seqZ 1 RETRY_MAX) url None.

(* ===================================================================== *)
(** * Source adapters *)
(* ===================================================================== *)

(** A notice is a [dict] from field name to text. *)
Definition get (n : gmap string string) (key dflt : string) : string :=
  default dflt (n !! key).

Definition notice (title buyer deadline url source : string) : gmap string string :=
  <["title" := title]> (<["buyer" := buyer]> (<["deadline" := deadline]>
    (<["url" := url]> (<["source" := source]> ∅)))).

(** An anchor of a parsed page: [a.get_text(strip=True)] and [a.get("href")]. *)
Record anchor := Anchor { anchor_text : string; anchor_href : option string }.

(** The two library calls the adapters lean on: BeautifulSoup's
    [BeautifulSoup(text, "lxml").select("a")] and urllib's [urljoin]. *)
Record web := Web {
  select_anchors : string -> result (list anchor);
  urljoin : string -> string -> result string
}.

(** The loop over the anchors of one page, shared by both adapters. *)
Fixpoint scan_anchors (KEYWORDS : gset string) (lib : web) (base source : string)
    (anchors : list anchor) (notices : list (gmap string string))
  : result (list (gmap string string)) :=
  match anchors with
  | [] => Ok notices
  | a :: rest =>
      let title := anchor_text a in
      match anchor_href a with
      | None => scan_anchors KEYWORDS lib base source rest notices
      | Some href =>
          if negb (nonempty title) || negb (nonempty href)
          then scan_anchors KEYWORDS lib base source rest notices
          else
            match urljoin lib base href with
            | Raise e => Raise e
            | Ok full =>
                if relevant_score KEYWORDS title <? 1
                then scan_anchors KEYWORDS lib base source rest notices
                else scan_anchors KEYWORDS lib base source rest
                       (notices ++ [notice title "" "" full source])
            end
      end
  end.

Definition fetch_page (KEYWORDS : gset string) (lib : web) (base source : string)
  : M (list (gmap string string)) :=
  try_except
    (r <- http_get base ;;
     soup <- lift (select_anchors lib (text r)) ;;
     lift (scan_anchors KEYWORDS lib base source soup []))
    (fun _ => ret []).

Definition fetch_ethiopian_tender_com (KEYWORDS : gset string) (lib : web)
  : M (list (gmap string string)) :=
  fetch_page KEYWORDS lib "https://www.ethiopiantender.com/" "EthiopianTender.com".

Definition fetch_globaltenders_et_sw (KEYWORDS : gset string) (lib : web)
  : M (list (gmap string string)) :=
  fetch_page KEYWORDS lib "https://www.globaltenders.com/ethiopia/et-software-tenders"
             "GlobalTenders (ET Software)".

Definition SOURCES (KEYWORDS : gset string) (lib : web) : list (M (list (gmap string string))) :=
  [ fetch_ethiopian_tender_com KEYWORDS lib; fetch_globaltenders_et_sw KEYWORDS lib ].

(** Calling every fetcher of a list in turn: what each call returned or
    raised, which is what [run_cycle] reads. *)
Fixpoint call_all {A} (fetchers : list (M A)) (w : net) : list (result A) * net :=
  match fetchers with
  | [] => ([], w)
  | f :: rest =>
      let '(r, w') := f w in
      let '(rs, w'') := call_all rest w' in
      (r :: rs, w'')
  end.

(* ===================================================================== *)
(** * The run cycle *)
(* ===================================================================== *)

(** The local variables of [run_cycle] while it loops, and how many times
    [time.time()] has been read. *)
Record cycle := Cycle {
  c_state : gmap string Z;
  c_new : list (gmap string string);
  c_checked : Z;
  c_ticks : nat
}.

Definition notice_uid (n : gmap string string) : string :=
  uid_hash (get n "title" "") (get n "buyer" "") (get n "deadline" "") (get n "url" "").

Definition text_blob (n : gmap string string) : string :=
  get n "title" "" +:+ " " +:+ get n "url" "".

(** The body of [for n in items].  [clock i] is what the i-th call of
    [time.time()] in this run returns. *)
Definition visit (KEYWORDS : gset string) (seen : gset string) (clock : nat -> Z)
    (c : cycle) (n : gmap string string) : cycle :=
  let checked_count := c_checked c + 1 in
  let uid := notice_uid n in
  if decide (uid ∈ seen) then Cycle (c_state c) (c_new c) checked_count (c_ticks c)
  else if relevant_score KEYWORDS (text_blob n) <? 1
  then Cycle (c_state c) (c_new c) checked_count (c_ticks c)
  else Cycle (<[uid := clock (c_ticks c)]> (c_state c)) (c_new c ++ [n])
             checked_count (S (c_ticks c)).

(** The body of [for fetcher in SOURCES]: [out] is what [fetcher()] did. *)
Definition visit_source (KEYWORDS : gset string) (seen : gset string) (clock : nat -> Z)
    (c : cycle) (out : result (list (gmap string string))) : cycle :=
  let items := match out with Ok l => l | Raise _ => [] end in
  fold_left (visit KEYWORDS seen clock) items c.

Definition RETENTION : Z := 90 * 24 * 3600.

Definition trim (cutoff : Z) (state : gmap string Z) : gmap string Z :=
  filter (fun kv => cutoff <= kv.2) state.

Definition run_cycle (KEYWORDS : gset string) (outs : list (result (list (gmap string string))))
    (clock : nat -> Z) (file : state_file)
  : (list (gmap string string) * Z) * state_file :=
  let state := load_state file in
  let seen := dom state in
  let c := fold_left (visit_source KEYWORDS seen clock) outs (Cycle state [] 0 0) in
  let cutoff := clock (c_ticks c) - RETENTION in
  let trimmed := trim cutoff (c_state c) in
  let state' := if decide (size trimmed ≠ size (c_state c)) then trimmed else c_state c in
  ((c_new c, c_checked c), save_state state').

(* ===================================================================== *)
(** * The notifier *)
(* ===================================================================== *)

Definition NL : string := String "010"%char EmptyString.
Definition DQ : string := String "034"%char EmptyString.
Definition INDENT : string := "        ".

(** One [<li>] of the digest. *)
Definition format_row (n : gmap string string) : string :=
  let title := get n "title" "(no title)" in
  let buyer := get n "buyer" "" in
  let dl := get n "deadline" "N/A" in
  let url := get n "url" "#" in
  let src := get n "source" "" in
  ("<li><b>" +:+ title +:+ "</b>")
  +:+ (if nonempty buyer then " — " +:+ buyer else "")
  +:+ (" — deadline: " +:+ dl +:+ "<br>"
       +:+ "<a href='" +:+ url +:+ "'>" +:+ url +:+ "</a> <i>(" +:+ src +:+ ")</i></li>").

(** [''.join(rows)] *)
Definition join_rows (rows : list string) : string :=
  fold_right String.append "" rows.

Definition FOOTER : string :=
  "<p style=" +:+ DQ +:+ "color:#888" +:+ DQ
  +:+ ">You can tune keywords in config/keywords.txt</p>".

Definition format_email (notices : list (gmap string string)) (checked_count : Z)
  : string * string :=
  match notices with
  | _ :: _ =>
      let subject :=
        "[ET Tenders] " +:+ pretty (Z.of_nat (length notices)) +:+ " new software/ICT notices" in
      let rows := map format_row notices in
      let html :=
        NL +:+ INDENT +:+ "<p>New Ethiopia software/ICT tenders detected (checked "
           +:+ pretty checked_count +:+ " items):</p>"
        +:+ NL +:+ INDENT +:+ "<ul>" +:+ join_rows rows +:+ "</ul>"
        +:+ NL +:+ INDENT +:+ FOOTER
        +:+ NL +:+ INDENT in
      (subject, html)
  | [] =>
      let subject := "[ET Tenders] No new software/ICT notices" in
      let html :=
        NL +:+ INDENT +:+ "<p>No new matching tenders in the latest check (scanned "
           +:+ pretty checked_count +:+ " items).</p>"
        +:+ NL +:+ INDENT +:+ "<p style=" +:+ DQ +:+ "color:#888" +:+ DQ
        +:+ ">This is a heartbeat. You can tune keywords in config/keywords.txt</p>"
        +:+ NL +:+ INDENT in
      (subject, html)
  end.

Record email := Email {
  mail_subject : string;
  mail_html : string;
  mail_from : string;
  mail_to : string
}.

(** Python truth value of an optional [str] ([os.getenv] without default). *)
Definition truthy (s : option string) : bool :=
  match s with Some v => nonempty v | None => false end.

(** What one SMTP session does, step by step: each field tells whether the
    call, if it is reached, returns or raises.  [smtp_sendmail] returns when
    the server has taken the message for the one recipient.  [smtp_quit] is
    [SMTP.__exit__], which the [with] statement runs when its block is
    left, also when the block raised: it sends QUIT and raises when the
    reply is not 221. *)
Record smtp_session := SmtpSession {
  smtp_connect : result unit;     (* smtplib.SMTP(SMTP_HOST, SMTP_PORT) *)
  smtp_starttls : result unit;    (* s.starttls() *)
  smtp_login : result unit;       (* s.login(SMTP_USER, SMTP_PASS) *)
  smtp_sendmail : result unit;    (* s.sendmail(SMTP_USER, [ALERT_TO], ...) *)
  smtp_quit : result unit         (* SMTP.__exit__ *)
}.

(** [send_email]: [smtp] is what the SMTP session does if it is opened;
    [outbox] holds the messages the server has taken so far.  When the
    constructor raises there is no block to leave; otherwise the exception
    of [__exit__], if it raises, replaces the one of the block. *)
Definition send_email (cfg : config) (smtp : smtp_session) (subject html : string)
    (outbox : list email) : result unit * list email :=
  if negb (truthy (SMTP_USER cfg) && truthy (SMTP_PASS cfg) && nonempty (ALERT_TO cfg))
  then (Ok tt, outbox)
  else
    let msg := Email subject html (default "" (SMTP_USER cfg)) (ALERT_TO cfg) in
    match smtp_connect smtp with
    | Raise e => (Raise e, outbox)
    | Ok _ =>
        let '(block, outbox') :=
          match smtp_starttls smtp with
          | Raise e => (Raise e, outbox)
          | Ok _ =>
              match smtp_login smtp with
              | Raise e => (Raise e, outbox)
              | Ok _ =>
                  match smtp_sendmail smtp with
                  | Raise e => (Raise e, outbox)
                  | Ok _ => (Ok tt, (outbox ++ [msg])%list)
                  end
              end
          end in
        match smtp_quit smtp with
        | Raise e => (Raise e, outbox')
        | Ok _ => (block, outbox')
        end
    end.

(* ===================================================================== *)
(** * Wall-clock time: [time.gmtime] and [time.mktime] *)
(* ===================================================================== *)

Module Calendar.

Record struct_time := StructTime {
  tm_year : Z; tm_mon : Z; tm_mday : Z;
  tm_hour : Z; tm_min : Z; tm_sec : Z;
  tm_wday : Z; tm_yday : Z; tm_isdst : Z
}.

(** Days since 1970-01-01 of a date of the proleptic Gregorian calendar;
    years start in March so that the leap day comes last. *)
Definition days_from_civil (y m d : Z) : Z :=
  let y' := if m <=? 2 then y - 1 else y in
  let era := y' / 400 in
  let yoe := y' - era * 400 in
  let mp := if 2 <? m then m - 3 else m + 9 in
  let doy := (153 * mp + 2) / 5 + d - 1 in
  let doe := yoe * 365 + yoe / 4 - yoe / 100 + doy in
  era * 146097 + doe - 719468.

(** The date of a day number. *)
Definition civil_from_days (z : Z) : Z * Z * Z :=
  let z' := z + 719468 in
  let era := z' / 146097 in
  let doe := z' - era * 146097 in
  let yoe := (doe - doe / 1460 + doe / 36524 - doe / 146096) / 365 in
  let doy := doe - (365 * yoe + yoe / 4 - yoe / 100) in
  let mp := (5 * doy + 2) / 153 in
  let d := doy - (153 * mp + 2) / 5 + 1 in
  let m := if mp <? 10 then mp + 3 else mp - 9 in
  let y := yoe + era * 400 in
  (if m <=? 2 then y + 1 else y, m, d).

(** [time.gmtime(now)]: the broken-down UTC time; Monday is weekday 0. *)
Definition gmtime (now : Z) : struct_time :=
  let days := now / 86400 in
  let secs := now mod 86400 in
  let '(y, m, d) := civil_from_days days in
  StructTime y m d (secs / 3600) (secs mod 3600 / 60) (secs mod 60)
             ((days + 3) mod 7) (days - days_from_civil y 1 1 + 1) 0.

(** [time.mktime(t)]: the epoch time of a broken-down LOCAL time.
    [utc_offset] is how many seconds the process's time zone is ahead of
    UTC in standard time, which is what a [tm_isdst] of zero asks for; the
    weekday and the day of the year are ignored, fields out of range carry
    over. *)
Definition mktime (utc_offset : Z) (t : struct_time) : Z :=
  days_from_civil (tm_year t) (tm_mon t) (tm_mday t) * 86400
  + tm_hour t * 3600 + tm_min t * 60 + tm_sec t - utc_offset.

End Calendar.

(* ===================================================================== *)
(** * The heartbeat *)
(* ===================================================================== *)

Definition HEARTBEAT_KEY : string := "_last_heartbeat".

(** What persists between calls: the state file and the mail the server
    has taken. *)
Record world := World {
  w_file : state_file;
  w_outbox : list email
}.

Definition target_today (cfg : config) (utc_offset : Z) (now : Z) : Z :=
  let t := Calendar.gmtime now in
  Calendar.mktime utc_offset
    (Calendar.StructTime (Calendar.tm_year t) (Calendar.tm_mon t) (Calendar.tm_mday t)
       (HEARTBEAT_HOUR_UTC cfg) 0 0
       (Calendar.tm_wday t) (Calendar.tm_yday t) (Calendar.tm_isdst t)).

(** [maybe_send_heartbeat]: [now] is what [time.time()] returns, [smtp] what
    the SMTP session does if one is opened. *)
Definition maybe_send_heartbeat (cfg : config) (utc_offset : Z) (now : Z)
    (smtp : smtp_session) (w : world) : result bool * world :=
  if negb (HEARTBEAT_ENABLE cfg) then (Ok false, w)
  else
    let state := load_state (w_file w) in
    let last_hb := default 0 (state !! HEARTBEAT_KEY) in
    let target := target_today cfg utc_offset now in
    if (target <=? now) && (last_hb <? target) then
      match send_email cfg smtp "[ET Tenders] Daily heartbeat" "<p>Watcher is running.</p>"
                       (w_outbox w) with
      | (Ok _, outbox) =>
          (Ok true, World (save_state (<[HEARTBEAT_KEY := now]> state)) outbox)
      | (Raise e, outbox) => (Raise e, World (w_file w) outbox)
      end
    else (Ok false, w).

(** Successive calls, each at its own time and with its own SMTP session; a
    call that raises ends its process and leaves the state file as it is. *)
Definition heartbeat_calls (cfg : config) (utc_offset : Z)
    (calls : list (Z * smtp_session)) (w : world) : world :=
  fold_left (fun w c => snd (maybe_send_heartbeat cfg utc_offset (fst c) (snd c) w)) calls w.

(* ===================================================================== *)
(** * Vocabulary of the specification *)
(* ===================================================================== *)

(** A text within the ASCII range. *)
Fixpoint ascii_only (s : string) : bool :=
  match s with
  | EmptyString => true
  | String c r => (code c <? 128) && ascii_only r
  end.

(** Two characters are the same letter, case aside: they are equal, or one
    is a capital among A..Z and the other its small letter. *)
Definition same_letter (a b : ascii) : Prop :=
  a = b
  \/ (65 <= code a <= 90 /\ code b = code a + 32)
  \/ (65 <= code b <= 90 /\ code a = code b + 32).

(** Two texts read the same, case aside. *)
Inductive eq_ci : string -> string -> Prop :=
| eq_ci_nil : eq_ci EmptyString EmptyString
| eq_ci_cons (a b : ascii) (s t : string) :
    same_letter a b -> eq_ci s t -> eq_ci (String a s) (String b t).

(** Keyword [k] occurs in [text] as a substring, letter case aside: some
    run of consecutive characters of [text] reads as [k]. *)
Definition occurs_ci (k text : string) : Prop :=
  exists a m b, text = a +:+ m +:+ b /\ eq_ci k m.

(** The codes of the ASCII characters Python counts as white space. *)
Definition white_space_codes : list Z := [9; 10; 11; 12; 13; 28; 29; 30; 31; 32].

(** [m] is a run of consecutive characters of [t]. *)
Definition substring (m t : string) : Prop := exists a b, t = a +:+ m +:+ b.

(** The candidates a cycle looks at: what the adapters that returned have
    emitted, in adapter-then-page order. *)
Definition items_of (outs : list (result (list (gmap string string))))
  : list (gmap string string) :=
  flat_map (fun out => match out with Ok l => l | Raise _ => [] end) outs.

(** A candidate is accepted when its fingerprint was not in the loaded state
    and its title and URL mention a keyword. *)
Definition accepts (KEYWORDS : gset string) (seen : gset string) (n : gmap string string) : bool :=
  negb (bool_decide (notice_uid n ∈ seen)) && (1 <=? relevant_score KEYWORDS (text_blob n)).

(** The state after recording the accepted notices [acc], the first of them
    at clock reading number [t]. *)
Fixpoint stamp (clock : nat -> Z) (t : nat) (acc : list (gmap string string))
    (state : gmap string Z) : gmap string Z :=
  match acc with
  | [] => state
  | n :: rest => stamp clock (S t) rest (<[notice_uid n := clock t]> state)
  end.

(** What an adapter emits: a title that scores, hence a title and URL that
    score. *)
Definition title_hit (KEYWORDS : gset string) (n : gmap string string) : Prop :=
  1 <= relevant_score KEYWORDS (get n "title" "")
  /\ 1 <= relevant_score KEYWORDS (get n "title" "" +:+ " " +:+ get n "url" "").

(** The scenario of the specification: two keywords and two candidates. *)
Definition scenario_keywords : gset string := list_to_set ["erp"; "web"].

Definition erp_notice (source : string) : gmap string string :=
  notice "ERP System Tender" "" "" "http://x/1" source.

Definition chairs_notice (source : string) : gmap string string :=
  notice "Office Chairs" "" "" "http://x/2" source.

(** Reading a byte back from its two hexadecimal digits. *)
Definition unhex_digit (c : ascii) : Z :=
  if code c <? 58 then code c - 48 else code c - 87.

Definition unhex_byte (hi lo : ascii) : ascii :=
  chr (16 * unhex_digit hi + unhex_digit lo).

(** Two different messages with the same SHA-256 digest. *)
Definition sha256_collision (m m' : list ascii) : Prop :=
  m <> m' /\ Sha256.digest m = Sha256.digest m'.

(** Sixteen tuples for the examples: two values for each field. *)
Definition sample_tuples : list (string * string * string * string) :=
  t ← ["ERP System Tender"; "Office Chairs"];
  b ← [""; "Ministry of Finance"];
  d ← [""; "2025-01-31"];
  u ← ["http://x/1"; "http://x/2"];
  [(t, b, d, u)].

Definition tuple_hash (p : string * string * string * string) : string :=
  let '(t, b, d, u) := p in uid_hash t b d u.

(** One entry of the digest as the specification words it: the title, the
    buyer if there is one, the deadline, the link and the source tag. *)
Definition listing (title : string) (buyer : option string) (deadline link source : string)
  : string :=
  "<li><b>" +:+ title +:+ "</b>"
  +:+ match buyer with Some b => " — " +:+ b | None => "" end
  +:+ " — deadline: " +:+ deadline +:+ "<br>"
  +:+ "<a href='" +:+ link +:+ "'>" +:+ link +:+ "</a> <i>(" +:+ source +:+ ")</i></li>".

(** The buyer of a notice when it is present: the key is there and its text
    is not empty. *)
Definition buyer_of (n : gmap string string) : option string :=
  match n !! "buyer" with
  | Some b => if nonempty b then Some b else None
  | None => None
  end.

(** What the [try] block of one attempt raises, given what [requests.get]
    did: its exception, or the HTTP error of a 4xx or 5xx reply. *)
Definition attempt_failure (o : result response) : option exn :=
  match o with
  | Raise e => Some e
  | Ok r =>
      if (400 <=? status_code r) && (status_code r <? 600)
      then Some (HTTPError (status_code r))
      else None
  end.

(** The world after a failed attempt numbered [attempt]: one request and
    one sleep later. *)
Definition after_failure (url : string) (attempt : Z) (w : net) : net :=
  Net (net_reply w) (net_random w) (S (net_gets w)) (S (net_randoms w))
      (net_trace w
       ++ [EvGet url;
           EvSleep (inject_Z (RETRY_BASE_SLEEP * attempt) + net_random w (net_randoms w))%Q]).

(** The world after a request that went through. *)
Definition after_reply (url : string) (w : net) : net :=
  Net (net_reply w) (net_random w) (S (net_gets w)) (net_randoms w)
      (net_trace w ++ [EvGet url]).

(** A network on which every request fails, with a fixed jitter. *)
Definition dead_net (jitter : Q) : net :=
  Net (fun _ _ => Raise (RequestException "connection refused")) (fun _ => jitter) 0 0 [].

(** The UTC calendar day of a timestamp, and the timestamp of the
    configured hour of that day in UTC. *)
Definition utc_day (now : Z) : Z := now / 86400.

Definition utc_target (cfg : config) (now : Z) : Z :=
  86400 * utc_day now + 3600 * HEARTBEAT_HOUR_UTC cfg.

(** The last heartbeat on record, zero when there is none. *)
Definition last_heartbeat (w : world) : Z :=
  default 0 (load_state (w_file w) !! HEARTBEAT_KEY).

(** The heartbeat message, and whether the configuration lets mail go out. *)
Definition heartbeat_mail (cfg : config) : email :=
  Email "[ET Tenders] Daily heartbeat" "<p>Watcher is running.</p>"
        (default "" (SMTP_USER cfg)) (ALERT_TO cfg).

Definition can_send (cfg : config) : bool :=
  truthy (SMTP_USER cfg) && truthy (SMTP_PASS cfg) && nonempty (ALERT_TO cfg).

(** A session in which every step succeeds. *)
Definition smtp_ok : smtp_session := SmtpSession (Ok tt) (Ok tt) (Ok tt) (Ok tt) (Ok tt).

Definition is_ok {A} (r : result A) : bool :=
  match r with Ok _ => true | Raise _ => false end.

(** The server takes the message: every step up to [sendmail] returns. *)
Definition accepted (s : smtp_session) : bool :=
  is_ok (smtp_connect s) && is_ok (smtp_starttls s) && is_ok (smtp_login s)
  && is_ok (smtp_sendmail s).

(** What the [with] statement of a session comes to. *)
Definition session_outcome (s : smtp_session) : result unit :=
  match smtp_connect s with
  | Raise e => Raise e
  | Ok _ =>
      match smtp_quit s with
      | Raise e => Raise e
      | Ok _ =>
          match smtp_starttls s, smtp_login s, smtp_sendmail s with
          | Raise e, _, _ => Raise e
          | Ok _, Raise e, _ => Raise e
          | Ok _, Ok _, r => r
          end
      end
  end.

(** The session raises although the server took the message. *)
Definition late_failure (s : smtp_session) : bool :=
  accepted s && negb (is_ok (session_outcome s)).

(** A session that fails at QUIT, after the message was taken. *)
Definition smtp_quit_fails : smtp_session :=
  SmtpSession (Ok tt) (Ok tt) (Ok tt) (Ok tt) (Raise (SMTPException "QUIT: 421")).

(** A session that fails at login, before any message is handed over. *)
Definition smtp_login_fails : smtp_session :=
  SmtpSession (Ok tt) (Ok tt) (Raise (SMTPException "535 authentication failed")) (Ok tt) (Ok tt).

(** A configuration for the examples: Yahoo SMTP with credentials, heartbeat
    at six. *)
Definition sample_config (enable : bool) : config :=
  Config "ops@example.org" "smtp.mail.yahoo.com" 587 (Some "watcher@example.org")
         (Some "secret") 6 enable.

(** A page for the examples: four anchors, one of them without text and
    one without link; links are resolved by appending. *)
Definition sample_web : web :=
  Web (fun _ => Ok [ Anchor "ERP System Tender" (Some "t/1");
                     Anchor "Office Chairs" (Some "t/2");
                     Anchor "" (Some "t/3");
                     Anchor "Web portal" None ])
      (fun base href => Ok (base +:+ href)).

(** A network on which every request is answered with status 200. *)
Definition live_net : net :=
  Net (fun _ _ => Ok (Response 200 "<html></html>")) (fun _ => 0%Q) 0 0 [].

(** All texts of [n] letters over a and b. *)
Fixpoint words (n : nat) : list string :=
  match n with
  | O => [EmptyString]
  | S n' => (String "a" <$> words n') ++ (String "b" <$> words n')
  end.

Definition all_bytes : list ascii := ascii_of_nat <$> seq 0 256.

(** All byte strings of length [n]. *)
Fixpoint byte_lists (n : nat) : list (list ascii) :=
  match n with
  | O => [[]]
  | S n' => c ← all_bytes; (cons c <$> byte_lists n')
  end.

(* --------------------------------------------------------------------- *)
(** ** The whole run, and vocabulary of the further properties *)
(* --------------------------------------------------------------------- *)

(** A text made of white space only (the empty text included). *)
Fixpoint blank (s : string) : bool :=
  match s with
  | EmptyString => true
  | String c r => is_space c && blank r
  end.

(** A character among 0..9 and a..f. *)
Definition is_hex_char (c : ascii) : bool :=
  ((48 <=? code c) && (code c <=? 57)) || ((97 <=? code c) && (code c <=? 102)).

(** The seconds a trace spends in [time.sleep]. *)
Fixpoint slept (trace : list event) : Q :=
  match trace with
  | [] => 0%Q
  | EvSleep s :: rest => (s + slept rest)%Q
  | EvGet _ :: rest => slept rest
  end.

(** An anchor the adapters look at: it has a visible text and a link. *)
Definition has_text_and_link (a : anchor) : bool :=
  nonempty (anchor_text a)
  && match anchor_href a with Some href => nonempty href | None => false end.

(** An anchor on which an adapter breaks: it is looked at and its link does
    not resolve. *)
Definition link_fails (lib : web) (base : string) (a : anchor) : bool :=
  has_text_and_link a
  && match anchor_href a with
     | Some href => match urljoin lib base href with Raise _ => true | Ok _ => false end
     | None => false
     end.

(** What an anchor contributes to the notices of its page: one notice when
    it is looked at, its link resolves and its text scores. *)
Definition anchor_notices (KEYWORDS : gset string) (lib : web) (base source : string)
    (a : anchor) : list (gmap string string) :=
  match anchor_href a with
  | Some href =>
      match urljoin lib base href with
      | Ok full =>
          if has_text_and_link a && (1 <=? relevant_score KEYWORDS (anchor_text a))
          then [notice (anchor_text a) "" "" full source]
          else []
      | Raise _ => []
      end
  | None => []
  end.

(** The two adapters with the page each one fetches and its source tag. *)
Definition adapters
  : list ((gset string -> web -> M (list (gmap string string))) * string * string) :=
  [ (fetch_ethiopian_tender_com, "https://www.ethiopiantender.com/", "EthiopianTender.com");
    (fetch_globaltenders_et_sw,
     "https://www.globaltenders.com/ethiopia/et-software-tenders",
     "GlobalTenders (ET Software)") ].

(** A page one of whose links does not resolve. *)
Definition brittle_web : web :=
  Web (fun _ => Ok [ Anchor "ERP System Tender" (Some "t/1");
                     Anchor "Contact" (Some "http://[bad") ])
      (fun base href =>
         if startswith "http://[" href then Raise (OtherError "Invalid IPv6 URL")
         else Ok (base +:+ href)).

(** How many times a notice occurs in a list. *)
Definition occurrences (n : gmap string string) (l : list (gmap string string)) : nat :=
  length (List.filter (fun m => bool_decide (m = n)) l).

(** A configuration without SMTP credentials. *)
Definition bare_config : config :=
  Config "ops@example.org" "smtp.mail.yahoo.com" 587 None None 6 true.

(** [main]: one run of the watcher.  As for [run_cycle], [outs] is what the
    fetchers did and [clock] what [time.time()] returns call after call;
    [smtp] is what the SMTP session of this run does.  An exception of
    [send_email] is not caught. *)
Definition main (cfg : config) (KEYWORDS : gset string)
    (outs : list (result (list (gmap string string)))) (clock : nat -> Z)
    (utc_offset : Z) (smtp : smtp_session) (w : world) : result unit * world :=
  let '((new_notices, checked), file) := run_cycle KEYWORDS outs clock (w_file w) in
  let '(subject, html) := format_email new_notices checked in
  match new_notices with
  | _ :: _ =>
      let '(r, outbox) := send_email cfg smtp subject html (w_outbox w) in
      (r, World file outbox)
  | [] =>
      let '(r, w') :=
        maybe_send_heartbeat cfg utc_offset (clock (S (length new_notices))) smtp
                             (World file (w_outbox w)) in
      (match r with Ok _ => Ok tt | Raise e => Raise e end, w')
  end.

(** The digest message of a run. *)
Definition digest_mail (cfg : config) (notices : list (gmap string string)) (checked : Z)
  : email :=
  Email (fst (format_email notices checked)) (snd (format_email notices checked))
        (default "" (SMTP_USER cfg)) (ALERT_TO cfg).

(** Successive runs, each with its adapter outputs, clock and SMTP session. *)
Definition main_runs (cfg : config) (KEYWORDS : gset string) (utc_offset : Z)
    (runs : list (list (result (list (gmap string string))) * (nat -> Z) * smtp_session))
    (w : world) : world :=
  fold_left (fun w '(outs, clock, smtp) => snd (main cfg KEYWORDS outs clock utc_offset smtp w))
            runs w.

#[global] Instance email_eq_dec : EqDecision email.
Proof. solve_decision. Defined.

(** How many heartbeat messages an outbox holds. *)
Definition heartbeats_in (cfg : config) (outbox : list email) : nat :=
  length (List.filter (fun m => bool_decide (m = heartbeat_mail cfg)) outbox).

(** How many of the runs have a session that raises after the server took
    its message. *)
Definition late_failures
    (runs : list (list (result (list (gmap string string))) * (nat -> Z) * smtp_session))
  : nat :=
  length (List.filter (fun '(_, _, smtp) => late_failure smtp) runs).

(* ===================================================================== *)
(** * Theorems *)
(* ===================================================================== *)

Example sha256_empty :
  Sha256.hexdigest [] = "e3b0c44298fc1c149afbf4c8996fb92427ae41e4649b934ca495991b7852b855".
Proof. vm_compute. reflexivity. Qed.

Example sha256_abc :
  Sha256.hexdigest (encode_utf8 "abc")
  = "ba7816bf8f01cfea414140de5dae2223b00361a396177a9cb410ff61f20015ad".
Proof. vm_compute. reflexivity. Qed.

Example sha256_two_blocks :
  Sha256.hexdigest (encode_utf8 "abcdbcdecdefdefgefghfghighijhijkijkljklmklmnlmnomnopnopq")
  = "248d6a61d20638b8e5c026930c3e6039a33ce45964ff2167f6ecedd419db06c1".
Proof. vm_compute. reflexivity. Qed.

(* --------------------------------------------------------------------- *)
(** ** Text *)
(* --------------------------------------------------------------------- *)

Lemma app_nil_l_str (s : string) : "" +:+ s = s.
Proof. reflexivity. Qed.

Lemma app_cons_str (c : ascii) (s t : string) : String c s +:+ t = String c (s +:+ t).
Proof. reflexivity. Qed.

Lemma app_nil_r_str (s : string) : s +:+ "" = s.
Proof. induction s as [|c s IH]; [reflexivity|]. by rewrite app_cons_str, IH. Qed.

Lemma app_assoc_str (a b c : string) : (a +:+ b) +:+ c = a +:+ (b +:+ c).
Proof.
  induction a as [|x a IH]; [reflexivity|].
  by rewrite !app_cons_str, IH.
Qed.

Lemma length_app_str (a b : string) :
  String.length (a +:+ b) = (String.length a + String.length b)%nat.
Proof.
  induction a as [|x a IH]; [reflexivity|].
  rewrite app_cons_str. simpl. by rewrite IH.
Qed.

Lemma app_inj_r_str (a b s : string) : a +:+ s = b +:+ s -> a = b.
Proof.
  intros H.
  assert (Hlen : String.length a = String.length b).
  { apply (f_equal String.length) in H. rewrite !length_app_str in H. lia. }
  revert b H Hlen. induction a as [|x a IH]; intros [|y b] H Hlen; simpl in Hlen; try lia.
  - reflexivity.
  - rewrite !app_cons_str in H. injection H as -> H. f_equal. apply IH; [done | lia].
Qed.

Lemma encode_utf8_inj (a b : string) : encode_utf8 a = encode_utf8 b -> a = b.
Proof.
  revert b. induction a as [|x a IH]; intros [|y b] H; simpl in H; try discriminate.
  - reflexivity.
  - injection H as -> H. f_equal. by apply IH.
Qed.

Lemma lower_char_idem (c : ascii) : lower_char (lower_char c) = lower_char c.
Proof. destruct c as [[] [] [] [] [] [] [] []]; reflexivity. Qed.

Lemma lower_idem (s : string) : lower (lower s) = lower s.
Proof.
  induction s as [|c s IH]; simpl; [reflexivity|].
  by rewrite lower_char_idem, IH.
Qed.

Lemma lower_app (a b : string) : lower (a +:+ b) = lower a +:+ lower b.
Proof.
  induction a as [|c a IH]; [reflexivity|].
  rewrite app_cons_str. simpl. by rewrite IH.
Qed.

Lemma code_range (c : ascii) : 0 <= code c < 256.
Proof.
  unfold code. pose proof (N_ascii_bounded c) as H. lia.
Qed.

Lemma code_chr (z : Z) : 0 <= z < 256 -> code (chr z) = z.
Proof.
  intros Hz. unfold code, chr. rewrite Z.mod_small by done.
  rewrite N_ascii_embedding by lia. lia.
Qed.

Lemma code_inj (a b : ascii) : code a = code b -> a = b.
Proof.
  unfold code. intros H. apply N2Z.inj in H.
  rewrite <- (ascii_N_embedding a), <- (ascii_N_embedding b). by rewrite H.
Qed.

Lemma code_lower_char (c : ascii) :
  code (lower_char c) = if (65 <=? code c) && (code c <=? 90) then code c + 32 else code c.
Proof.
  unfold lower_char. destruct ((65 <=? code c) && (code c <=? 90)) eqn:E; [|reflexivity].
  apply andb_true_iff in E as [?%Z.leb_le ?%Z.leb_le]. apply code_chr. lia.
Qed.

(** [str.lower] sends two characters to the same one exactly when they are
    the same letter, case aside. *)
Lemma lower_char_same_letter (a b : ascii) :
  lower_char a = lower_char b <-> same_letter a b.
Proof.
  unfold same_letter. split.
  - intros H. apply (f_equal code) in H. rewrite !code_lower_char in H.
    destruct (decide (code a = code b)) as [Hab|Hab]; [left; by apply code_inj|].
    right.
    destruct (Z.leb_spec 65 (code a)), (Z.leb_spec (code a) 90),
             (Z.leb_spec 65 (code b)), (Z.leb_spec (code b) 90); cbn [andb] in H; lia.
  - intros H. apply code_inj. rewrite !code_lower_char.
    destruct H as [->|[[Ha Hb]|[Hb Ha]]]; [reflexivity| |].
    + rewrite Hb.
      destruct (Z.leb_spec 65 (code a)), (Z.leb_spec (code a) 90),
               (Z.leb_spec 65 (code a + 32)), (Z.leb_spec (code a + 32) 90); cbn [andb]; lia.
    + rewrite Ha.
      destruct (Z.leb_spec 65 (code b)), (Z.leb_spec (code b) 90),
               (Z.leb_spec 65 (code b + 32)), (Z.leb_spec (code b + 32) 90); cbn [andb]; lia.
Qed.

Lemma lower_eq_ci (s t : string) : lower s = lower t <-> eq_ci s t.
Proof.
  split.
  - revert t. induction s as [|a s IH]; intros [|b t] H; try discriminate.
    + constructor.
    + cbn [lower] in H. injection H as Hc Hr.
      constructor; [by apply lower_char_same_letter | by apply IH].
  - induction 1 as [|a b s t Hab _ IH]; [reflexivity|].
    cbn [lower]. by rewrite (proj2 (lower_char_same_letter a b) Hab), IH.
Qed.

Lemma lower_app_inv (t x y : string) :
  lower t = x +:+ y -> exists t1 t2, t = t1 +:+ t2 /\ lower t1 = x /\ lower t2 = y.
Proof.
  revert t. induction x as [|c x IH]; intros t H.
  - exists EmptyString, t. by rewrite !app_nil_l_str.
  - destruct t as [|d t]; [discriminate|].
    cbn [lower] in H. rewrite app_cons_str in H. injection H as Hc Hr.
    destruct (IH t Hr) as (t1 & t2 & -> & H1 & H2).
    exists (String d t1), t2. rewrite app_cons_str. cbn [lower]. by rewrite Hc, H1.
Qed.

Lemma startswith_iff (k t : string) :
  startswith k t = true <-> exists b, t = k +:+ b.
Proof.
  revert t. induction k as [|x k IH]; intros t; simpl.
  - split; [intros _; by exists t | done].
  - destruct t as [|y t].
    + split; [done | intros [b Hb]; discriminate].
    + destruct (Ascii.eqb_spec x y) as [->|Hne].
      * rewrite IH. split; intros [b Hb]; exists b.
        -- rewrite app_cons_str. by f_equal.
        -- rewrite app_cons_str in Hb. by injection Hb.
      * split; [done|]. intros [b Hb]. rewrite app_cons_str in Hb.
        injection Hb as ? ?. congruence.
Qed.

(** [k in t] holds exactly when [t] is some text, then [k], then some text. *)
Lemma contains_iff (k t : string) :
  contains k t = true <-> exists a b, t = a +:+ k +:+ b.
Proof.
  induction t as [|y t IH].
  - simpl. rewrite orb_false_r, startswith_iff. split.
    + intros [b Hb]. by exists "", b.
    + intros [[|x a] [b Hb]]; [by exists b | discriminate].
  - cbn [contains]. rewrite orb_true_iff, IH, startswith_iff. split.
    + intros [[b Hb] | (a & b & Hab)].
      * by exists "", b.
      * exists (String y a), b. rewrite app_cons_str. by f_equal.
    + intros ([|x a] & b & Hab).
      * left. by exists b.
      * right. rewrite app_cons_str in Hab. injection Hab as -> ->. by exists a, b.
Qed.

Lemma contains_app_l (k a b : string) :
  contains k a = true -> contains k (a +:+ b) = true.
Proof.
  rewrite !contains_iff. intros (p & q & ->). exists p, (q +:+ b).
  by rewrite !app_assoc_str.
Qed.

Lemma contains_app_r (k a b : string) :
  contains k b = true -> contains k (a +:+ b) = true.
Proof.
  rewrite !contains_iff. intros (p & q & ->). exists (a +:+ p), q.
  by rewrite !app_assoc_str.
Qed.

(* --------------------------------------------------------------------- *)
(** ** Keywords and the relevance score *)
(* --------------------------------------------------------------------- *)

Lemma default_keywords_lowered : Forall (fun k => lower k = k) default_keywords.
Proof. unfold default_keywords. repeat constructor. Qed.

(** Every keyword the loader returns is in lower case. *)
Lemma load_keywords_lowered (file : option string) (k : string) :
  k ∈ load_keywords file -> lower k = k.
Proof.
  destruct file as [content|]; simpl.
  - intros Hk. apply list_elem_of_In, in_map_iff in Hk as (ln & <- & _).
    apply lower_idem.
  - intros Hk. by apply (proj1 (Forall_forall _ _) default_keywords_lowered).
Qed.

Lemma keyword_set_lowered (file : option string) (k : string) :
  k ∈ keyword_set file -> lower k = k.
Proof.
  unfold keyword_set. rewrite elem_of_list_to_set. apply load_keywords_lowered.
Qed.

Lemma relevant_score_nonneg (KW : gset string) (text : string) :
  0 <= relevant_score KW text.
Proof. unfold relevant_score. lia. Qed.

(** The score counts the keywords of the set found in the lowered text. *)
Lemma relevant_score_hits (KW : gset string) (text : string) :
  exists hits : gset string,
    (forall k, k ∈ hits <-> k ∈ KW /\ contains k (lower text) = true)
    /\ relevant_score KW text = Z.of_nat (size hits).
Proof.
  set (l := List.filter (fun k => contains k (lower text)) (elements KW)).
  exists (list_to_set l). split.
  - intros k. rewrite elem_of_list_to_set. unfold l.
    rewrite list_elem_of_In, filter_In, <- list_elem_of_In, elem_of_elements. tauto.
  - unfold relevant_score. fold l. f_equal. symmetry. apply size_list_to_set.
    unfold l. apply NoDup_ListNoDup, List.NoDup_filter, NoDup_ListNoDup, NoDup_elements.
Qed.

Lemma relevant_score_pos (KW : gset string) (text : string) :
  1 <= relevant_score KW text <-> exists k, k ∈ KW /\ contains k (lower text) = true.
Proof.
  unfold relevant_score.
  set (l := List.filter (fun k => contains k (lower text)) (elements KW)).
  split.
  - intros H. destruct l as [|k l'] eqn:El; [simpl in H; lia|].
    assert (Hk : In k l) by (rewrite El; by left).
    unfold l in Hk. apply filter_In in Hk as [Hk1 Hk2].
    exists k. split; [|done]. by apply elem_of_elements, list_elem_of_In.
  - intros (k & Hk1 & Hk2).
    assert (Hk : In k l).
    { unfold l. apply filter_In. split; [|done]. by apply list_elem_of_In, elem_of_elements. }
    destruct l; [destruct Hk | simpl; lia].
Qed.

Lemma relevant_score_zero (KW : gset string) (text : string) :
  relevant_score KW text = 0 <-> forall k, k ∈ KW -> contains k (lower text) = false.
Proof.
  pose proof (relevant_score_nonneg KW text) as H0.
  pose proof (relevant_score_pos KW text) as H1.
  split.
  - intros Hz k Hk. destruct (contains k (lower text)) eqn:E; [|done].
    assert (1 <= relevant_score KW text) by (apply H1; eauto). lia.
  - intros Hall. destruct (decide (1 <= relevant_score KW text)) as [Hp|Hn]; [|lia].
    apply H1 in Hp as (k & Hk & Hc). rewrite (Hall k Hk) in Hc. discriminate.
Qed.

(** A keyword found in a text is found in any text that extends it, so the
    score can only grow. *)
Lemma relevant_score_app_l (KW : gset string) (a b : string) :
  relevant_score KW a <= relevant_score KW (a +:+ b).
Proof.
  unfold relevant_score. rewrite lower_app.
  apply inj_le.
  induction (elements KW) as [|k l IH]; simpl; [lia|].
  destruct (contains k (lower a)) eqn:E.
  - rewrite (contains_app_l _ _ _ E). simpl. lia.
  - destruct (contains k (lower a +:+ lower b)); simpl; lia.
Qed.

(* --------------------------------------------------------------------- *)
(** ** The run cycle in closed form *)
(* --------------------------------------------------------------------- *)

Lemma visit_accepts KW seen clock (c : cycle) (n : gmap string string) :
  visit KW seen clock c n =
  if accepts KW seen n
  then Cycle (<[notice_uid n := clock (c_ticks c)]> (c_state c)) (c_new c ++ [n])
             (c_checked c + 1) (S (c_ticks c))
  else Cycle (c_state c) (c_new c) (c_checked c + 1) (c_ticks c).
Proof.
  unfold visit, accepts.
  destruct (decide (notice_uid n ∈ seen)) as [Hin|Hout].
  - by rewrite (bool_decide_eq_true_2 _ Hin).
  - rewrite (bool_decide_eq_false_2 _ Hout). simpl.
    destruct (Z.ltb_spec (relevant_score KW (text_blob n)) 1) as [Hlt|Hge].
    + by rewrite (proj2 (Z.leb_gt _ _) Hlt).
    + by rewrite (proj2 (Z.leb_le _ _) Hge).
Qed.

Lemma visit_items KW seen clock (items : list (gmap string string)) (c : cycle) :
  fold_left (visit KW seen clock) items c =
  Cycle (stamp clock (c_ticks c) (List.filter (accepts KW seen) items) (c_state c))
        (c_new c ++ List.filter (accepts KW seen) items)
        (c_checked c + Z.of_nat (length items))
        (c_ticks c + length (List.filter (accepts KW seen) items)).
Proof.
  revert c. induction items as [|n items IH]; intros c.
  - destruct c. simpl. f_equal; [by rewrite app_nil_r | lia | lia].
  - cbn [fold_left List.filter]. rewrite IH, visit_accepts.
    destruct (accepts KW seen n); cbn [c_state c_new c_checked c_ticks stamp length].
    + f_equal; [by rewrite <- app_assoc | lia | lia].
    + f_equal. lia.
Qed.

Lemma visit_sources KW seen clock outs (c : cycle) :
  fold_left (visit_source KW seen clock) outs c
  = fold_left (visit KW seen clock) (items_of outs) c.
Proof.
  revert c. induction outs as [|out outs IH]; intros c; [reflexivity|].
  cbn [fold_left items_of flat_map]. rewrite fold_left_app, IH. reflexivity.
Qed.

(** The length test before [state = trimmed] changes nothing: a trimmed
    state of the same size is the state itself. *)
Lemma trim_size_test (cutoff : Z) (state : gmap string Z) :
  (if decide (size (trim cutoff state) ≠ size state) then trim cutoff state else state)
  = trim cutoff state.
Proof.
  destruct (decide (size (trim cutoff state) ≠ size state)) as [|Heq]; [reflexivity|].
  symmetry. apply map_subseteq_size_eq.
  - apply map_filter_subseteq.
  - apply dec_stable in Heq. unfold trim in *. lia.
Qed.

Lemma trim_lookup (cutoff : Z) (state : gmap string Z) (k : string) (v : Z) :
  trim cutoff state !! k = Some v <-> state !! k = Some v /\ cutoff <= v.
Proof. unfold trim. by rewrite map_lookup_filter_Some. Qed.

Lemma trim_lookup_None (cutoff : Z) (state : gmap string Z) (k : string) :
  trim cutoff state !! k = None <-> forall v, state !! k = Some v -> v < cutoff.
Proof.
  unfold trim. rewrite map_lookup_filter_None. split.
  - intros [Hn | Hall] v Hv; [congruence|]. specialize (Hall v Hv). simpl in Hall. lia.
  - intros H. right. intros v Hv. simpl. specialize (H v Hv). lia.
Qed.

(** [run_cycle] in closed form: the accepted candidates in order, the number
    of candidates looked at, and the stored state: the loaded one, stamped
    with the accepted fingerprints, trimmed at ninety days before the last
    clock reading. *)
Lemma run_cycle_eq KW outs clock file :
  let seen := dom (load_state file) in
  let acc := List.filter (accepts KW seen) (items_of outs) in
  run_cycle KW outs clock file =
  ((acc, Z.of_nat (length (items_of outs))),
   Stored (trim (clock (length acc) - RETENTION) (stamp clock 0 acc (load_state file)))).
Proof.
  intros seen acc. unfold run_cycle.
  rewrite visit_sources, visit_items. cbn [c_state c_new c_checked c_ticks].
  fold seen. fold acc. rewrite trim_size_test. unfold save_state.
  rewrite Nat.add_0_l, Z.add_0_l. reflexivity.
Qed.

Lemma stamp_lookup clock (k : string) (acc : list (gmap string string)) :
  forall (t : nat) (state : gmap string Z),
    (stamp clock t acc state !! k = state !! k
     /\ Forall (fun n => notice_uid n ≠ k) acc)
    \/ (exists (j : nat) (n : gmap string string),
          acc !! j = Some n /\ notice_uid n = k
          /\ stamp clock t acc state !! k = Some (clock (t + j)%nat)).
Proof.
  induction acc as [|n acc IH]; intros t state.
  - left. split; [reflexivity | constructor].
  - cbn [stamp].
    destruct (IH (S t) (<[notice_uid n := clock t]> state)) as [[Heq Hall] | (j & m & Hj & Hm & Heq)].
    + destruct (decide (notice_uid n = k)) as [Hk|Hk].
      * right. exists 0%nat, n. split; [reflexivity|]. split; [done|].
        rewrite Heq, Hk, lookup_insert_eq. by rewrite Nat.add_0_r.
      * left. split; [by rewrite Heq, lookup_insert_ne | by constructor].
    + right. exists (S j), m. split; [done|]. split; [done|].
      rewrite Heq. f_equal. f_equal. lia.
Qed.

(** For a keyword in lower case, the test of the code ([k in text.lower()])
    is the occurrence of the keyword, case aside. *)
Lemma occurs_ci_contains (k text : string) :
  lower k = k -> (occurs_ci k text <-> contains k (lower text) = true).
Proof.
  intros Hk. rewrite contains_iff. unfold occurs_ci. split.
  - intros (a & m & b & -> & Hm). exists (lower a), (lower b).
    rewrite !lower_app. by rewrite <- (proj2 (lower_eq_ci k m) Hm), Hk.
  - intros (a & b & H).
    destruct (lower_app_inv text a (k +:+ b) H) as (t1 & t2 & -> & _ & H2).
    destruct (lower_app_inv t2 k b H2) as (m & t3 & -> & Hm & _).
    exists t1, m, t3. split; [reflexivity|]. apply lower_eq_ci. by rewrite Hk, Hm.
Qed.

Lemma accepted_spec KW (seen : gset string) (items : list (gmap string string))
    (n : gmap string string) :
  n ∈ List.filter (accepts KW seen) items <->
  n ∈ items /\ (notice_uid n ∉ seen) /\ 1 <= relevant_score KW (text_blob n).
Proof.
  rewrite !list_elem_of_In, filter_In. unfold accepts.
  rewrite andb_true_iff, negb_true_iff, bool_decide_eq_false, Z.leb_le. tauto.
Qed.

(** The match is on substrings, not on words, and the keywords of the file
    are lowered when they are loaded. *)
Example score_inside_a_word :
  relevant_score scenario_keywords "Superpower supplies" = 1.
Proof. vm_compute. reflexivity. Qed.

Example score_ignores_case :
  relevant_score (keyword_set (Some ("  ERP " +:+ NL +:+ NL +:+ "Web" +:+ NL)))
                 "Tender: erp and WEB portal" = 2.
Proof. vm_compute. reflexivity. Qed.



(* --------------------------------------------------------------------- *)
(** ** Adapter failures *)
(* --------------------------------------------------------------------- *)

Lemma items_of_app (a b : list (result (list (gmap string string)))) :
  items_of (a ++ b) = (items_of a ++ items_of b)%list.
Proof. unfold items_of. apply flat_map_app. Qed.

Lemma items_of_raise (pre post : list (result (list (gmap string string)))) (e : exn) :
  items_of (pre ++ Raise e :: post) = items_of (pre ++ post).
Proof. rewrite !items_of_app. reflexivity. Qed.

(** C6. A fetcher that raises is caught in the loop over the sources: the
    cycle returns the same notices, the same count and stores the same state
    as if that fetcher were not in the list, the count being the number of
    items of the fetchers that returned. *)
Theorem adapter_failure_isolation KW (pre post : list (result (list (gmap string string))))
    (e : exn) (clock : nat -> Z) (file : state_file) :
  run_cycle KW (pre ++ Raise e :: post) clock file = run_cycle KW (pre ++ post) clock file
  /\ fst (fst (run_cycle KW (pre ++ Raise e :: post) clock file))
     = List.filter (accepts KW (dom (load_state file))) (items_of pre ++ items_of post)%list
  /\ snd (fst (run_cycle KW (pre ++ Raise e :: post) clock file))
     = Z.of_nat (length (items_of pre) + length (items_of post)).
Proof.
  rewrite !run_cycle_eq, items_of_raise, items_of_app, length_app.
  by repeat split.
Qed.

Example crashed_adapter_scenario :
  fst (run_cycle scenario_keywords
         [ Raise (OtherError "boom");
           Ok [erp_notice "GlobalTenders (ET Software)";
               chairs_notice "GlobalTenders (ET Software)"] ]
         (fun _ => 1700000000) Absent)
  = ([erp_notice "GlobalTenders (ET Software)"], 2).
Proof. vm_compute. reflexivity. Qed.

(* --------------------------------------------------------------------- *)
(** ** Fingerprints have sixty-four characters *)
(* --------------------------------------------------------------------- *)

Lemma length_decode_utf8 (l : list ascii) : String.length (decode_utf8 l) = length l.
Proof. induction l as [|c l IH]; simpl; [reflexivity | by rewrite IH]. Qed.

Lemma length_digest (data : list ascii) : length (Sha256.digest data) = 32%nat.
Proof.
  unfold Sha256.digest.
  generalize (Sha256.blocks (length (Sha256.pad (map code data))) Sha256.H_init
                (Sha256.pad (map code data))).
  intros H. rewrite length_map. reflexivity.
Qed.

Lemma length_hexdigest (data : list ascii) :
  String.length (Sha256.hexdigest data) = 64%nat.
Proof.
  unfold Sha256.hexdigest. rewrite length_decode_utf8.
  pose proof (length_digest data) as H.
  destruct (Sha256.digest data) as [|b0 l]; [discriminate|].
  do 31 (destruct l as [|? l]; [discriminate|]).
  destruct l; [reflexivity | discriminate].
Qed.

Lemma uid_hash_length (title buyer deadline url : string) :
  String.length (uid_hash title buyer deadline url) = 64%nat.
Proof. apply length_hexdigest. Qed.

Lemma notice_uid_not_heartbeat (n : gmap string string) : notice_uid n ≠ HEARTBEAT_KEY.
Proof.
  intros H. apply (f_equal String.length) in H.
  unfold notice_uid in H. rewrite uid_hash_length in H. discriminate.
Qed.

(* --------------------------------------------------------------------- *)
(** ** Retention and the frame of the stored state *)
(* --------------------------------------------------------------------- *)

Lemma accepted_unseen KW (seen : gset string) (items : list (gmap string string)) :
  Forall (fun n => notice_uid n ∉ seen) (List.filter (accepts KW seen) items).
Proof.
  apply Forall_forall. intros n Hn. apply accepted_spec in Hn. tauto.
Qed.

(** An entry of the loaded state is not written by the loop. *)
Lemma stamp_seen KW clock (state : gmap string Z) (items : list (gmap string string))
    (k : string) (v : Z) :
  state !! k = Some v ->
  stamp clock 0 (List.filter (accepts KW (dom state)) items) state !! k = Some v.
Proof.
  intros Hk.
  destruct (stamp_lookup clock k (List.filter (accepts KW (dom state)) items) 0 state)
    as [[Heq _] | (j & n & Hj & Hn & _)].
  - by rewrite Heq.
  - exfalso.
    pose proof (accepted_unseen KW (dom state) items) as Hall.
    rewrite Forall_forall in Hall.
    apply (Hall n).
    + by eapply list_elem_of_lookup_2.
    + rewrite Hn. apply elem_of_dom. by exists v.
Qed.

(** A run at time 1700000000 over a state with an entry of that day, an
    entry and a heartbeat mark of the year before: the old ones go, the
    recent one stays, the new fingerprint is stamped with the time read. *)
Example retention_example :
  let old := 1700000000 - 91 * 86400 in
  let recent := 1700000000 - 3600 in
  let file := Stored (<["aa" := old]> (<["bb" := recent]> (<[HEARTBEAT_KEY := old]> ∅))) in
  let r := run_cycle scenario_keywords [Ok [erp_notice "EthiopianTender.com"]]
                     (fun _ => 1700000000) file in
  map_to_list (load_state (snd r))
  ≡ₚ [ ("bb", recent);
       (uid_hash "ERP System Tender" "" "" "http://x/1", 1700000000) ].
Proof. vm_compute. apply Permutation_swap. Qed.

(** C4. After a cycle, no stored entry is older than ninety days before the
    time read for the cutoff; an entry of the loaded state that is older is
    gone and one that is not older is kept with its timestamp, the heartbeat
    key like any other. *)
Theorem retention_window KW (outs : list (result (list (gmap string string))))
    (clock : nat -> Z) (file : state_file) :
  let r := run_cycle KW outs clock file in
  let now := clock (length (fst (fst r))) in
  let saved := load_state (snd r) in
  RETENTION = 90 * 86400
  /\ (forall k v, saved !! k = Some v -> now - RETENTION <= v)
  /\ (forall k v, load_state file !! k = Some v ->
        v < now - RETENTION -> saved !! k = None)
  /\ (forall k v, load_state file !! k = Some v ->
        now - RETENTION <= v -> saved !! k = Some v)
  /\ (forall v, load_state file !! HEARTBEAT_KEY = Some v ->
        saved !! HEARTBEAT_KEY = if decide (now - RETENTION <= v) then Some v else None).
Proof.
  intros r now saved. subst r now saved. rewrite run_cycle_eq. cbn [fst snd load_state].
  set (acc := List.filter _ _). set (cutoff := clock (length acc) - RETENTION).
  assert (Hkeep : forall k v, load_state file !! k = Some v ->
                    cutoff <= v -> trim cutoff (stamp clock 0 acc (load_state file)) !! k = Some v).
  { intros k v Hk Hv. apply trim_lookup. split; [|done]. by apply stamp_seen. }
  assert (Hdrop : forall k v, load_state file !! k = Some v ->
                    v < cutoff -> trim cutoff (stamp clock 0 acc (load_state file)) !! k = None).
  { intros k v Hk Hv. apply trim_lookup_None. intros v' Hv'.
    unfold acc in Hv'. rewrite (stamp_seen _ _ _ _ _ _ Hk) in Hv'. congruence. }
  split; [reflexivity|]. split; [|split; [|split]].
  - intros k v Hk. by apply trim_lookup in Hk as [_ Hv].
  - exact Hdrop.
  - exact Hkeep.
  - intros v Hv. destruct (decide (cutoff <= v)) as [Hle|Hgt].
    + by apply Hkeep.
    + apply (Hdrop _ v); [done | lia].
Qed.

Lemma trim_cases (cutoff : Z) (state : gmap string Z) (k : string) (v : Z) :
  state !! k = Some v ->
  trim cutoff state !! k = Some v \/ (trim cutoff state !! k = None /\ v < cutoff).
Proof.
  intros Hk. destruct (decide (cutoff <= v)) as [Hle|Hgt].
  - left. by apply trim_lookup.
  - right. split; [|lia]. apply trim_lookup_None. intros v' Hv'.
    assert (v' = v) by congruence. lia.
Qed.

(** The state after recording the accepted notices holds, for a key, the
    time read at the last of them that has this key as its fingerprint. *)
Lemma stamp_lookup_last clock (k : string) (acc : list (gmap string string)) :
  forall (t : nat) (state : gmap string Z),
    (stamp clock t acc state !! k = state !! k
     /\ Forall (fun n => notice_uid n ≠ k) acc)
    \/ (exists (j : nat) (n : gmap string string),
          acc !! j = Some n /\ notice_uid n = k
          /\ (forall j' n', (j < j')%nat -> acc !! j' = Some n' -> notice_uid n' ≠ k)
          /\ stamp clock t acc state !! k = Some (clock (t + j)%nat)).
Proof.
  induction acc as [|n acc IH]; intros t state.
  - left. split; [reflexivity | constructor].
  - cbn [stamp].
    destruct (IH (S t) (<[notice_uid n := clock t]> state))
      as [[Heq Hall] | (j & m & Hj & Hm & Hlast & Heq)].
    + destruct (decide (notice_uid n = k)) as [Hk|Hk].
      * right. exists 0%nat, n. split; [reflexivity|]. split; [done|]. split.
        -- intros j' n' Hlt Hj'. destruct j' as [|j']; [lia|]. cbn in Hj'.
           rewrite Forall_forall in Hall. apply Hall. by eapply list_elem_of_lookup_2.
        -- rewrite Heq, Hk, lookup_insert_eq. by rewrite Nat.add_0_r.
      * left. split; [by rewrite Heq, lookup_insert_ne | by constructor].
    + right. exists (S j), m. split; [done|]. split; [done|]. split.
      * intros j' n' Hlt Hj'. destruct j' as [|j']; [lia|]. cbn in Hj'.
        apply (Hlast j' n'); [lia | done].
      * rewrite Heq. f_equal. f_equal. lia.
Qed.

(** C9, as stated, fails: the set of seen fingerprints is built once,
    before the loop, so a candidate emitted twice in one cycle (the same
    link twice on a page) is accepted twice, and the second acceptance
    writes over the time of the first.  With a clock that reads ten seconds
    more at each call the stored time is not the first-seen one. *)
Lemma first_seen_overwritten_counterexample :
  let n := erp_notice "EthiopianTender.com" in
  let clock := fun i : nat => 1700000000 + 10 * Z.of_nat i in
  let c1 := visit scenario_keywords ∅ clock (Cycle ∅ [] 0 0) n in
  let c2 := visit scenario_keywords ∅ clock c1 n in
  let r := run_cycle scenario_keywords [Ok [n; n]] clock Absent in
  c_state c1 !! notice_uid n = Some 1700000000
  /\ c_state c2 !! notice_uid n = Some 1700000010
  /\ fst (fst r) = [n; n]
  /\ load_state (snd r) !! notice_uid n = Some 1700000010.
Proof. repeat split; vm_compute; reflexivity. Qed.

(** C9, amended.  A step of the loop writes the state only when it accepts
    a candidate, and then sets the candidate's fingerprint to the time just
    read.  Over a whole cycle an entry of the loaded state, the heartbeat
    mark included, keeps its timestamp or is evicted for being older than
    ninety days; a key that was not in the loaded state is stored only as
    the fingerprint of an accepted notice, with the time read at the last
    acceptance of that fingerprint in this cycle (the first one when the
    adapters emit it once); and the heartbeat key is never written. *)
Theorem first_seen_frame KW (outs : list (result (list (gmap string string))))
    (clock : nat -> Z) (file : state_file) :
  let r := run_cycle KW outs clock file in
  let new := fst (fst r) in
  let cutoff := clock (length new) - RETENTION in
  let loaded := load_state file in
  let saved := load_state (snd r) in
  (forall seen c n,
      c_state (visit KW seen clock c n)
      = if accepts KW seen n
        then <[notice_uid n := clock (c_ticks c)]> (c_state c)
        else c_state c)
  /\ (forall k v, loaded !! k = Some v ->
        saved !! k = Some v \/ (saved !! k = None /\ v < cutoff))
  /\ (forall k v, loaded !! k = None -> saved !! k = Some v ->
        exists j n, new !! j = Some n /\ notice_uid n = k /\ v = clock j
          /\ forall j' n', (j < j')%nat -> new !! j' = Some n' -> notice_uid n' ≠ k)
  /\ (forall n, n ∈ new ->
        exists j n', new !! j = Some n' /\ notice_uid n' = notice_uid n
          /\ (forall j' n'', (j < j')%nat -> new !! j' = Some n'' ->
                notice_uid n'' ≠ notice_uid n)
          /\ (saved !! notice_uid n = Some (clock j)
              \/ (saved !! notice_uid n = None /\ clock j < cutoff)))
  /\ (loaded !! HEARTBEAT_KEY = None -> saved !! HEARTBEAT_KEY = None).
Proof.
  intros r new cutoff loaded saved. subst r new cutoff loaded saved.
  rewrite run_cycle_eq. cbn [fst snd load_state].
  set (acc := List.filter _ _). set (cutoff := clock (length acc) - RETENTION).
  split; [|split; [|split; [|split]]].
  - intros seen c n. rewrite visit_accepts. by destruct (accepts KW seen n).
  - intros k v Hk. apply trim_cases. by apply stamp_seen.
  - intros k v Hnone Hsaved. apply trim_lookup in Hsaved as [Hst _].
    destruct (stamp_lookup_last clock k acc 0 (load_state file))
      as [[Heq _] | (j & n & Hj & Hn & Hlast & Heq)].
    + congruence.
    + exists j, n. split; [done|]. split; [done|].
      rewrite Nat.add_0_l in Heq. split; [congruence | exact Hlast].
  - intros n Hn.
    destruct (stamp_lookup_last clock (notice_uid n) acc 0 (load_state file))
      as [[_ Hall] | (j & n' & Hj & Hn' & Hlast & Heq)].
    + rewrite Forall_forall in Hall. by destruct (Hall n Hn).
    + exists j, n'. split; [done|]. split; [done|]. split; [exact Hlast|].
      rewrite Nat.add_0_l in Heq. by apply trim_cases.
  - intros Hnone. apply trim_lookup_None. intros v Hv.
    destruct (stamp_lookup clock HEARTBEAT_KEY acc 0 (load_state file))
      as [[Heq _] | (j & n & _ & Hn & _)].
    + congruence.
    + by destruct (notice_uid_not_heartbeat n).
Qed.

(* --------------------------------------------------------------------- *)
(** ** The source adapters *)
(* --------------------------------------------------------------------- *)

Lemma get_notice_title (title buyer deadline url source : string) :
  get (notice title buyer deadline url source) "title" "" = title.
Proof. unfold get, notice. by rewrite lookup_insert_eq. Qed.

Lemma get_notice_url (title buyer deadline url source : string) :
  get (notice title buyer deadline url source) "url" "" = url.
Proof.
  unfold get, notice.
  rewrite !(lookup_insert_ne _ _ "url") by done. by rewrite lookup_insert_eq.
Qed.

Lemma title_hit_notice KW (title url source : string) :
  1 <= relevant_score KW title -> title_hit KW (notice title "" "" url source).
Proof.
  intros H. unfold title_hit. rewrite get_notice_title, get_notice_url.
  split; [done|]. pose proof (relevant_score_app_l KW title (" " +:+ url)). lia.
Qed.

Lemma scan_anchors_hits KW lib (base source : string) (anchors : list anchor) :
  forall notices res,
    Forall (title_hit KW) notices ->
    scan_anchors KW lib base source anchors notices = Ok res ->
    Forall (title_hit KW) res.
Proof.
  induction anchors as [|a anchors IH]; intros notices res Hall Hres; simpl in Hres.
  - by injection Hres as <-.
  - destruct (anchor_href a) as [href|]; [|by eapply IH].
    destruct (negb (nonempty (anchor_text a)) || negb (nonempty href)); [by eapply IH|].
    destruct (urljoin lib base href) as [full|e]; [|discriminate].
    destruct (Z.ltb_spec (relevant_score KW (anchor_text a)) 1) as [Hlt|Hge]; [by eapply IH|].
    eapply IH; [|done]. apply Forall_app. split; [done|].
    constructor; [|constructor]. by apply title_hit_notice.
Qed.

(** An adapter always returns, and returns title hits only. *)
Lemma fetch_page_hits KW lib (base source : string) (w : net) :
  exists items w', fetch_page KW lib base source w = (Ok items, w')
                   /\ Forall (title_hit KW) items.
Proof.
  unfold fetch_page, try_except, bind, lift, ret.
  destruct (http_get base w) as [[r|e] w1].
  - destruct (select_anchors lib (text r)) as [soup|e].
    + destruct (scan_anchors KW lib base source soup []) as [res|e] eqn:E.
      * exists res, w1. split; [done|]. by eapply scan_anchors_hits.
      * by exists [], w1.
    + by exists [], w1.
  - by exists [], w1.
Qed.

Example adapter_emits_title_hits_only :
  fst (fetch_ethiopian_tender_com scenario_keywords sample_web live_net)
  = Ok [ notice "ERP System Tender" "" "" "https://www.ethiopiantender.com/t/1"
                "EthiopianTender.com" ].
Proof. vm_compute. reflexivity. Qed.

Example adapter_degrades_to_empty :
  fst (fetch_globaltenders_et_sw scenario_keywords sample_web (dead_net 0)) = Ok [].
Proof. vm_compute. reflexivity. Qed.

(** C10. Both adapters always return a list, and every notice in it has a
    title whose score is at least one, so its title, a space and its URL
    score at least one too: a cycle fed by these adapters returns only
    notices whose title scores, and its relevance test rejects none of
    their candidates (it returns exactly the ones whose fingerprint is not
    in the loaded state). *)
Theorem adapters_emit_title_hits KW (lib : web) (w : net) :
  let outs := fst (call_all (SOURCES KW lib) w) in
  Forall (fun out => exists items, out = Ok items) outs
  /\ Forall (fun n => 1 <= relevant_score KW (get n "title" "")
                      /\ 1 <= relevant_score KW (get n "title" "" +:+ " " +:+ get n "url" ""))
            (items_of outs)
  /\ (forall clock file n,
        n ∈ fst (fst (run_cycle KW outs clock file)) ->
        1 <= relevant_score KW (get n "title" ""))
  /\ (forall clock file,
        fst (fst (run_cycle KW outs clock file))
        = List.filter (fun n => negb (bool_decide (notice_uid n ∈ dom (load_state file))))
                      (items_of outs)).
Proof.
  intros outs.
  assert (Houts : exists l1 l2, outs = [Ok l1; Ok l2]
                    /\ Forall (title_hit KW) l1 /\ Forall (title_hit KW) l2).
  { subst outs. unfold SOURCES, fetch_ethiopian_tender_com, fetch_globaltenders_et_sw.
    cbn [call_all].
    destruct (fetch_page_hits KW lib "https://www.ethiopiantender.com/"
                "EthiopianTender.com" w) as (l1 & w1 & -> & H1).
    destruct (fetch_page_hits KW lib
                "https://www.globaltenders.com/ethiopia/et-software-tenders"
                "GlobalTenders (ET Software)" w1) as (l2 & w2 & -> & H2).
    by exists l1, l2. }
  destruct Houts as (l1 & l2 & -> & H1 & H2).
  assert (Hitems : Forall (title_hit KW) (items_of [Ok l1; Ok l2])).
  { cbn [items_of flat_map]. rewrite app_nil_r. by apply Forall_app. }
  split; [|split; [|split]].
  - repeat constructor; eauto.
  - exact Hitems.
  - intros clock file n. rewrite run_cycle_eq. cbn [fst]. intros Hn.
    apply accepted_spec in Hn as (Hn & _ & _).
    rewrite Forall_forall in Hitems. by destruct (Hitems n Hn).
  - intros clock file. rewrite run_cycle_eq. cbn [fst].
    apply filter_ext_in. intros n Hn. unfold accepts.
    rewrite Forall_forall in Hitems. destruct (Hitems n) as [_ Hblob].
    { by apply list_elem_of_In. }
    unfold text_blob. rewrite (proj2 (Z.leb_le _ _) Hblob). by rewrite andb_true_r.
Qed.

(* --------------------------------------------------------------------- *)
(** ** Running the cycle twice *)
(* --------------------------------------------------------------------- *)

Lemma get_notice_buyer (title buyer deadline url source : string) :
  get (notice title buyer deadline url source) "buyer" "" = buyer.
Proof.
  unfold get, notice.
  rewrite !(lookup_insert_ne _ _ "buyer") by done. by rewrite lookup_insert_eq.
Qed.

Lemma get_notice_deadline (title buyer deadline url source : string) :
  get (notice title buyer deadline url source) "deadline" "" = deadline.
Proof.
  unfold get, notice.
  rewrite !(lookup_insert_ne _ _ "deadline") by done. by rewrite lookup_insert_eq.
Qed.

Lemma notice_uid_notice (title buyer deadline url source : string) :
  notice_uid (notice title buyer deadline url source) = uid_hash title buyer deadline url.
Proof.
  unfold notice_uid.
  by rewrite get_notice_title, get_notice_buyer, get_notice_deadline, get_notice_url.
Qed.

Lemma text_blob_notice (title buyer deadline url source : string) :
  text_blob (notice title buyer deadline url source) = title +:+ " " +:+ url.
Proof. unfold text_blob. by rewrite get_notice_title, get_notice_url. Qed.

Lemma filter_none {A} (f : A -> bool) (l : list A) :
  (forall x, In x l -> f x = false) -> List.filter f l = [].
Proof.
  induction l as [|x l IH]; intros H; [reflexivity|]. simpl.
  rewrite (H x) by (by left). apply IH. intros y Hy. apply H. by right.
Qed.

Lemma RETENTION_pos : 0 < RETENTION.
Proof. reflexivity. Qed.

(** After a cycle at a standing clock, every candidate that scores is in the
    stored state, provided the loaded state held none of them with a
    timestamp older than ninety days. *)
Lemma cycle_records_hits KW outs (now : Z) (file : state_file) (n : gmap string string) :
  (forall m v, m ∈ items_of outs -> 1 <= relevant_score KW (text_blob m) ->
               load_state file !! notice_uid m = Some v -> now - RETENTION <= v) ->
  n ∈ items_of outs ->
  1 <= relevant_score KW (text_blob n) ->
  notice_uid n ∈ dom (load_state (snd (run_cycle KW outs (fun _ => now) file))).
Proof.
  intros Hfresh Hn Hscore. rewrite run_cycle_eq. cbn [snd load_state].
  set (acc := List.filter _ _). apply elem_of_dom.
  destruct (load_state file !! notice_uid n) as [v|] eqn:Hv.
  - exists v. apply trim_lookup. split; [by apply stamp_seen | by eapply Hfresh].
  - assert (Hacc : n ∈ acc).
    { apply accepted_spec. split; [done|]. split; [|done]. by apply not_elem_of_dom. }
    destruct (stamp_lookup (fun _ => now) (notice_uid n) acc 0 (load_state file))
      as [[_ Hall] | (j & n' & _ & _ & Heq)].
    + rewrite Forall_forall in Hall. by destruct (Hall n Hacc).
    + exists now. apply trim_lookup. split; [done|]. pose proof RETENTION_pos. lia.
Qed.

Lemma scenario_score_erp :
  relevant_score scenario_keywords ("ERP System Tender" +:+ " " +:+ "http://x/1") = 1.
Proof. vm_compute. reflexivity. Qed.

Lemma scenario_score_chairs :
  relevant_score scenario_keywords ("Office Chairs" +:+ " " +:+ "http://x/2") = 0.
Proof. vm_compute. reflexivity. Qed.

Lemma scenario_accepts_erp (seen : gset string) (source : string) :
  accepts scenario_keywords seen (erp_notice source)
  = negb (bool_decide (notice_uid (erp_notice source) ∈ seen)).
Proof.
  unfold accepts, erp_notice. rewrite text_blob_notice, scenario_score_erp.
  by rewrite andb_true_r.
Qed.

Lemma scenario_accepts_chairs (seen : gset string) (source : string) :
  accepts scenario_keywords seen (chairs_notice source) = false.
Proof.
  unfold accepts, chairs_notice. rewrite text_blob_notice, scenario_score_chairs.
  by rewrite andb_false_r.
Qed.

(** C1, as stated, fails: a fingerprint stored more than ninety days ago is
    still skipped by the first run, evicted at its end, and so accepted as
    new by the second run, the adapters and the clock being the same. *)
Lemma dedup_stale_counterexample :
  let erp := erp_notice "EthiopianTender.com" in
  let now := 1700000000 in
  let file := Stored {[ notice_uid erp := 0 ]} in
  let r1 := run_cycle scenario_keywords [Ok [erp]] (fun _ => now) file in
  let r2 := run_cycle scenario_keywords [Ok [erp]] (fun _ => now) (snd r1) in
  fst r1 = ([], 1) /\ fst r2 = ([erp], 1).
Proof. vm_compute. split; reflexivity. Qed.

(** C1, amended. Two consecutive cycles with the same adapter outputs and a
    standing clock: when the state loaded by the first holds no scoring
    candidate's fingerprint with a timestamp older than ninety days, the
    second returns no notice and the same count.  In the scenario with the
    keywords erp and web and the candidates ERP System Tender and Office
    Chairs, starting from a state without the first one's fingerprint, the
    first cycle returns the ERP notice alone with a count of two and the
    second returns nothing with a count of two. *)
Theorem dedup_idempotence :
  (forall KW outs (now : Z) (file : state_file),
      (forall n v, n ∈ items_of outs -> 1 <= relevant_score KW (text_blob n) ->
                   load_state file !! notice_uid n = Some v -> now - RETENTION <= v) ->
      let r1 := run_cycle KW outs (fun _ => now) file in
      let r2 := run_cycle KW outs (fun _ => now) (snd r1) in
      fst (fst r2) = [] /\ snd (fst r2) = snd (fst r1))
  /\ (forall (source1 source2 : string) outs (now : Z) (file : state_file),
        items_of outs = [erp_notice source1; chairs_notice source2] ->
        load_state file !! uid_hash "ERP System Tender" "" "" "http://x/1" = None ->
        let r1 := run_cycle scenario_keywords outs (fun _ => now) file in
        let r2 := run_cycle scenario_keywords outs (fun _ => now) (snd r1) in
        fst r1 = ([erp_notice source1], 2) /\ fst r2 = ([], 2)).
Proof.
  split.
  - intros KW outs now file Hfresh r1 r2. subst r2. rewrite (run_cycle_eq KW outs _ (snd r1)).
    cbn [fst snd]. split.
    + apply filter_none. intros n Hn. apply list_elem_of_In in Hn. unfold accepts.
      destruct (Z.leb_spec 1 (relevant_score KW (text_blob n))) as [Hs|Hs];
        [|by rewrite andb_false_r].
      rewrite andb_true_r, negb_false_iff, bool_decide_eq_true.
      subst r1. by apply cycle_records_hits.
    + subst r1. by rewrite run_cycle_eq.
  - intros source1 source2 outs now file Hitems Hnone r1 r2.
    assert (Huid : notice_uid (erp_notice source1) ∉ dom (load_state file)).
    { unfold erp_notice. rewrite notice_uid_notice. by apply not_elem_of_dom. }
    assert (H1 : r1 = (([erp_notice source1], 2),
                       Stored (trim (now - RETENTION)
                                 (<[notice_uid (erp_notice source1) := now]> (load_state file))))).
    { subst r1. rewrite run_cycle_eq, Hitems. cbn [List.filter].
      rewrite scenario_accepts_erp, scenario_accepts_chairs.
      by rewrite (bool_decide_eq_false_2 _ Huid). }
    split; [by rewrite H1|].
    subst r2. rewrite H1, run_cycle_eq, Hitems. cbn [fst snd load_state List.filter].
    rewrite scenario_accepts_erp, scenario_accepts_chairs.
    rewrite bool_decide_eq_true_2; [reflexivity|].
    apply elem_of_dom. exists now. apply trim_lookup. split.
    + apply lookup_insert_eq.
    + pose proof RETENTION_pos. lia.
Qed.

Lemma dedup_idempotence_witness :
  let outs := [Ok [erp_notice "EthiopianTender.com"];
               Ok [chairs_notice "GlobalTenders (ET Software)"]] in
  let r1 := run_cycle scenario_keywords outs (fun _ => 1700000000) Absent in
  let r2 := run_cycle scenario_keywords outs (fun _ => 1700000000) (snd r1) in
  fst (fst r2) = [] /\ snd (fst r2) = snd (fst r1).
Proof.
  apply (proj1 dedup_idempotence scenario_keywords _ 1700000000 Absent).
  intros n v _ _ H. simpl in H. rewrite lookup_empty in H. discriminate.
Defined.

(* --------------------------------------------------------------------- *)
(** ** Fingerprints *)
(* --------------------------------------------------------------------- *)

Lemma unhex_hex (c : ascii) :
  match Sha256.hex_of_byte c with
  | [hi; lo] => unhex_byte hi lo = c
  | _ => False
  end.
Proof. destruct c as [[] [] [] [] [] [] [] []]; reflexivity. Qed.

Lemma hex_of_byte_inj (a b : ascii) : Sha256.hex_of_byte a = Sha256.hex_of_byte b -> a = b.
Proof.
  intros H. pose proof (unhex_hex a) as Ha. pose proof (unhex_hex b) as Hb.
  rewrite H in Ha. unfold Sha256.hex_of_byte in Ha, Hb. congruence.
Qed.

Lemma hex_bytes_inj (l l' : list ascii) :
  flat_map Sha256.hex_of_byte l = flat_map Sha256.hex_of_byte l' -> l = l'.
Proof.
  revert l'. induction l as [|a l IH]; intros [|b l'] H; try discriminate.
  - reflexivity.
  - cbn [flat_map] in H. unfold Sha256.hex_of_byte at 1 3 in H.
    cbn [app] in H. injection H as H1 H2 H3.
    f_equal; [|by apply IH].
    apply hex_of_byte_inj. unfold Sha256.hex_of_byte. by rewrite H1, H2.
Qed.

Lemma decode_utf8_inj (l l' : list ascii) : decode_utf8 l = decode_utf8 l' -> l = l'.
Proof.
  revert l'. induction l as [|a l IH]; intros [|b l'] H; simpl in H; try discriminate.
  - reflexivity.
  - injection H as -> H. f_equal. by apply IH.
Qed.

(** Equal hexadecimal digests come from equal digests. *)
Lemma hexdigest_inj (m m' : list ascii) :
  Sha256.hexdigest m = Sha256.hexdigest m' -> Sha256.digest m = Sha256.digest m'.
Proof. unfold Sha256.hexdigest. intros H. by apply hex_bytes_inj, decode_utf8_inj. Qed.

(** Equal fingerprints of different joined texts are a SHA-256 collision. *)
Lemma uid_hash_eq_collision (t b d u t' b' d' u' : string) :
  uid_preimage t b d u <> uid_preimage t' b' d' u' ->
  uid_hash t b d u = uid_hash t' b' d' u' ->
  sha256_collision (encode_utf8 (uid_preimage t b d u))
                   (encode_utf8 (uid_preimage t' b' d' u')).
Proof.
  intros Hne Heq. split.
  - intros H. by apply Hne, encode_utf8_inj.
  - by apply hexdigest_inj.
Qed.

(** The joined text changes with each of its four fields. *)
Lemma uid_preimage_title (t t' b d u : string) :
  uid_preimage t b d u = uid_preimage t' b d u -> t = t'.
Proof. unfold uid_preimage. apply app_inj_r_str. Qed.

Lemma uid_preimage_buyer (t b b' d u : string) :
  uid_preimage t b d u = uid_preimage t b' d u -> b = b'.
Proof.
  unfold uid_preimage. intros H.
  do 2 apply (inj (String.app _)) in H. by apply app_inj_r_str in H.
Qed.

Lemma uid_preimage_deadline (t b d d' u : string) :
  uid_preimage t b d u = uid_preimage t b d' u -> d = d'.
Proof.
  unfold uid_preimage. intros H.
  do 4 apply (inj (String.app _)) in H. by apply app_inj_r_str in H.
Qed.

Lemma uid_preimage_url (t b d u u' : string) :
  uid_preimage t b d u = uid_preimage t b d u' -> u = u'.
Proof.
  unfold uid_preimage. intros H.
  by do 6 apply (inj (String.app _)) in H.
Qed.

(** *** Degenerate inputs exist

    A digest has thirty-two bytes, so among the titles of 257 letters two
    have the same fingerprint: the proviso on collisions below cannot be
    dropped. *)

#[local] Instance String_cons_inj (c : ascii) : Inj (=) (=) (String c).
Proof. by intros s1 s2 [= ->]. Qed.

Lemma length_words (n : nat) : length (words n) = (2 ^ n)%nat.
Proof.
  induction n as [|n IH]; [reflexivity|].
  cbn [words]. rewrite length_app, !length_fmap, IH, Nat.pow_succ_r'. lia.
Qed.

Lemma NoDup_words (n : nat) : NoDup (words n).
Proof.
  induction n as [|n IH]; cbn [words].
  - apply NoDup_singleton.
  - apply NoDup_app. split; [|split].
    + apply (NoDup_fmap_2 _), IH.
    + intros x [y [-> _]]%list_elem_of_fmap [z [Hz _]]%list_elem_of_fmap. discriminate.
    + apply (NoDup_fmap_2 _), IH.
Qed.

Lemma elem_of_all_bytes (c : ascii) : c ∈ all_bytes.
Proof.
  unfold all_bytes. apply list_elem_of_fmap. exists (nat_of_ascii c). split.
  - symmetry. apply ascii_nat_embedding.
  - apply elem_of_seq. pose proof (nat_ascii_bounded c). lia.
Qed.

Lemma elem_of_byte_lists (l : list ascii) : l ∈ byte_lists (length l).
Proof.
  induction l as [|c l IH]; cbn [byte_lists length].
  - apply list_elem_of_singleton. reflexivity.
  - apply list_elem_of_bind. exists c. split; [|apply elem_of_all_bytes].
    by apply list_elem_of_fmap_2.
Qed.

Lemma length_bind_const {A B} (f : A -> list B) (k : nat) (l : list A) :
  (forall x, length (f x) = k) -> length (l ≫= f) = (length l * k)%nat.
Proof.
  intros Hf. induction l as [|x l IH]; [reflexivity|].
  change ((x :: l) ≫= f) with (f x ++ (l ≫= f))%list.
  rewrite length_app, Hf, IH. simpl. lia.
Qed.

Lemma length_byte_lists (n : nat) : length (byte_lists n) = (256 ^ n)%nat.
Proof.
  induction n as [|n IH]; [reflexivity|].
  cbn [byte_lists]. rewrite (length_bind_const _ (256 ^ n)%nat).
  - unfold all_bytes. rewrite length_fmap, length_seq, Nat.pow_succ_r'. reflexivity.
  - intros c. by rewrite length_fmap.
Qed.

Lemma more_words_than_digests : (256 ^ 32 < 2 ^ 257)%nat.
Proof.
  change 256%nat with (2 ^ 8)%nat. rewrite <- Nat.pow_mul_r.
  apply Nat.pow_lt_mono_r; [lia|]. apply Nat.ltb_lt. reflexivity.
Qed.

(** With the buyer, the deadline and the URL fixed, two different titles
    have the same fingerprint: there are more titles of 257 letters than
    digests of 32 bytes. *)
Lemma fingerprints_collide (b d u : string) :
  exists t t', t <> t' /\ uid_hash t b d u = uid_hash t' b d u.
Proof.
  set (f := fun t => Sha256.digest (encode_utf8 (uid_preimage t b d u))).
  destruct (list_pigeonhole (f <$> words 257) (byte_lists 32)) as (i1 & i2 & x & Hlt & H1 & H2).
  - intros y [t [-> _]]%list_elem_of_fmap. unfold f.
    rewrite <- (length_digest (encode_utf8 (uid_preimage t b d u))).
    apply elem_of_byte_lists.
  - rewrite length_fmap, length_words, length_byte_lists. apply more_words_than_digests.
  - apply list_lookup_fmap_Some in H1 as (t1 & Hx1 & Ht1).
    apply list_lookup_fmap_Some in H2 as (t2 & Hx2 & Ht2).
    exists t1, t2. split.
    + intros ->. pose proof (NoDup_lookup _ _ _ _ (NoDup_words 257) Ht1 Ht2). lia.
    + unfold uid_hash, Sha256.hexdigest. fold (f t1). fold (f t2). congruence.
Qed.



(* --------------------------------------------------------------------- *)
(** ** The digest *)
(* --------------------------------------------------------------------- *)

Lemma format_row_listing (n : gmap string string) :
  format_row n
  = listing (default "(no title)" (n !! "title")) (buyer_of n)
            (default "N/A" (n !! "deadline")) (default "#" (n !! "url"))
            (default "" (n !! "source")).
Proof.
  unfold format_row, listing, buyer_of, get.
  destruct (n !! "buyer") as [b|]; simpl; [destruct (nonempty b)|];
    by rewrite !app_assoc_str.
Qed.

Lemma join_rows_elem (rows : list string) (r : string) :
  r ∈ rows -> exists a b, join_rows rows = a +:+ r +:+ b.
Proof.
  induction rows as [|x rows IH]; intros Hr.
  - by apply elem_of_nil in Hr.
  - apply elem_of_cons in Hr as [->|Hr].
    + exists "", (join_rows rows). reflexivity.
    + destruct (IH Hr) as (a & b & Hab). exists (x +:+ a), b.
      cbn [join_rows fold_right]. fold (join_rows rows).
      by rewrite Hab, app_assoc_str.
Qed.

Lemma subject_count_inj (a b : Z) :
  "[ET Tenders] " +:+ pretty a +:+ " new software/ICT notices"
  = "[ET Tenders] " +:+ pretty b +:+ " new software/ICT notices" -> a = b.
Proof.
  intros H. apply (inj (String.app _)) in H. apply app_inj_r_str in H.
  by apply (inj pretty) in H.
Qed.

(** C8. For a list of notices that is not empty, the subject carries the
    number of notices in decimal (two subjects are equal only for equal
    numbers), and the body is a heading with the number of items checked, a
    list with one entry per notice in order, and the fixed footer.  The
    entry of a notice shows its title, its buyer when it has one (the key
    is there and its text is not empty), its link and its source tag.  On
    the deadline the code departs from the claim: the buyer is tested for
    emptiness, the deadline only for its key.  N/A is printed when the
    notice has no deadline key; a notice whose deadline is the empty text,
    which is what both adapters emit, gets an empty deadline and no N/A. *)
Theorem digest_formatting (n : gmap string string) (ns : list (gmap string string))
    (checked_count : Z) :
  let notices := n :: ns in
  let subject := fst (format_email notices checked_count) in
  let html := snd (format_email notices checked_count) in
  subject = "[ET Tenders] " +:+ pretty (Z.of_nat (length notices))
            +:+ " new software/ICT notices"
  /\ (forall (m : gmap string string) (ms : list (gmap string string)) (c : Z),
        fst (format_email (m :: ms) c) = subject ->
        length (m :: ms) = length notices)
  /\ html = NL +:+ INDENT +:+ "<p>New Ethiopia software/ICT tenders detected (checked "
            +:+ pretty checked_count +:+ " items):</p>"
            +:+ NL +:+ INDENT +:+ "<ul>" +:+ join_rows (map format_row notices) +:+ "</ul>"
            +:+ NL +:+ INDENT +:+ FOOTER +:+ NL +:+ INDENT
  /\ (forall m : gmap string string, m ∈ notices ->
        format_row m
        = listing (default "(no title)" (m !! "title")) (buyer_of m)
                  (default "N/A" (m !! "deadline")) (default "#" (m !! "url"))
                  (default "" (m !! "source"))
        /\ contains (format_row m) html = true)
  /\ (forall m : gmap string string, m !! "deadline" = None ->
        format_row m
        = listing (default "(no title)" (m !! "title")) (buyer_of m) "N/A"
                  (default "#" (m !! "url")) (default "" (m !! "source")))
  /\ (forall m : gmap string string, m !! "deadline" = Some "" ->
        format_row m
        = listing (default "(no title)" (m !! "title")) (buyer_of m) ""
                  (default "#" (m !! "url")) (default "" (m !! "source")))
  /\ (forall title url source : string,
        format_row (notice title "" "" url source)
        = "<li><b>" +:+ title +:+ "</b> — deadline: <br><a href='" +:+ url +:+ "'>" +:+ url
          +:+ "</a> <i>(" +:+ source +:+ ")</i></li>").
Proof.
  intros notices subject html. subst subject html.
  cbn [format_email notices fst snd]. split; [reflexivity|].
  split; [|split; [reflexivity|split; [|split; [|split]]]].
  - intros m ms c H. apply subject_count_inj in H. lia.
  - intros m Hm. split; [apply format_row_listing|].
    do 8 apply contains_app_r. apply contains_app_l, contains_iff.
    apply join_rows_elem, list_elem_of_fmap. by exists m.
  - intros m Hm. rewrite format_row_listing. by rewrite Hm.
  - intros m Hm. rewrite format_row_listing. by rewrite Hm.
  - intros title url source. rewrite format_row_listing. unfold buyer_of, notice, listing.
    rewrite lookup_insert_eq.
    rewrite !(lookup_insert_ne _ _ "buyer") by done. rewrite lookup_insert_eq.
    rewrite !(lookup_insert_ne _ _ "deadline") by done. rewrite lookup_insert_eq.
    rewrite !(lookup_insert_ne _ _ "url") by done. rewrite lookup_insert_eq.
    rewrite !(lookup_insert_ne _ _ "source") by done. rewrite lookup_insert_eq.
    reflexivity.
Qed.

(** The digest of the scenario's candidate as the first adapter emits it:
    the deadline is printed empty. *)
Example digest_without_deadline :
  snd (format_email [erp_notice "EthiopianTender.com"] 2)
  = NL +:+ INDENT
    +:+ "<p>New Ethiopia software/ICT tenders detected (checked 2 items):</p>"
    +:+ NL +:+ INDENT
    +:+ "<ul><li><b>ERP System Tender</b> — deadline: <br>"
    +:+ "<a href='http://x/1'>http://x/1</a> <i>(EthiopianTender.com)</i></li></ul>"
    +:+ NL +:+ INDENT +:+ FOOTER +:+ NL +:+ INDENT.
Proof. vm_compute. reflexivity. Qed.

(* --------------------------------------------------------------------- *)
(** ** The HTTP fetcher *)
(* --------------------------------------------------------------------- *)

Lemma attempt_fails (url : string) (w : net) (e : exn) :
  attempt_failure (net_reply w (net_gets w) url) = Some e ->
  (r <- requests_get url ;; raise_for_status r ;;; ret r) w = (Raise e, after_reply url w).
Proof.
  unfold attempt_failure, bind, requests_get, raise_for_status, after_reply.
  destruct (net_reply w (net_gets w) url) as [r|e'].
  - destruct ((400 <=? status_code r) && (status_code r <? 600)); [|discriminate].
    by intros [= <-].
  - by intros [= <-].
Qed.

Lemma attempt_succeeds (url : string) (w : net) :
  attempt_failure (net_reply w (net_gets w) url) = None ->
  exists r, net_reply w (net_gets w) url = Ok r
            /\ (r <- requests_get url ;; raise_for_status r ;;; ret r) w
               = (Ok r, after_reply url w).
Proof.
  unfold attempt_failure, bind, requests_get, raise_for_status, after_reply.
  destruct (net_reply w (net_gets w) url) as [r|e']; [|discriminate].
  destruct ((400 <=? status_code r) && (status_code r <? 600)); [discriminate|].
  intros _. by exists r.
Qed.

(** One turn of the loop: a reply that passes is returned at once; a
    failure is remembered, slept on, and the loop goes on. *)
Lemma http_get_loop_fail (attempt : Z) (rest : list Z) (url : string)
    (last_exc : option exn) (w : net) (e : exn) :
  attempt_failure (net_reply w (net_gets w) url) = Some e ->
  http_get_loop (attempt :: rest) url last_exc w
  = http_get_loop rest url (Some e) (after_failure url attempt w).
Proof.
  intros H. cbn [http_get_loop]. rewrite (attempt_fails _ _ _ H).
  unfold bind, random_random, time_sleep, after_reply, after_failure.
  cbn [net_reply net_random net_gets net_randoms net_trace].
  by rewrite <- app_assoc.
Qed.

Lemma http_get_loop_pass (attempt : Z) (rest : list Z) (url : string)
    (last_exc : option exn) (w : net) :
  attempt_failure (net_reply w (net_gets w) url) = None ->
  exists r, net_reply w (net_gets w) url = Ok r
            /\ http_get_loop (attempt :: rest) url last_exc w = (Ok r, after_reply url w).
Proof.
  intros H. destruct (attempt_succeeds _ _ H) as (r & Hr & Hrun).
  exists r. split; [done|]. cbn [http_get_loop]. by rewrite Hrun.
Qed.

Lemma http_get_unfold (url : string) :
  http_get url = http_get_loop [1; 2; 3] url None.
Proof. reflexivity. Qed.

(** Every run of [http_get] is one of four: the first, second or third
    request passes and its reply is returned, each earlier failure having
    been slept on; or all three fail and the third failure is raised after
    a third sleep.  So there are at most three requests. *)
Lemma http_get_cases (url : string) (w : net) :
  let w1 := after_failure url 1 w in
  let w2 := after_failure url 2 w1 in
  let w3 := after_failure url 3 w2 in
  (exists r, http_get url w = (Ok r, after_reply url w))
  \/ (exists r, http_get url w = (Ok r, after_reply url w1))
  \/ (exists r, http_get url w = (Ok r, after_reply url w2))
  \/ (exists e, http_get url w = (Raise e, w3)
                /\ attempt_failure (net_reply w (S (S (net_gets w))) url) = Some e).
Proof.
  intros w1 w2 w3. rewrite http_get_unfold.
  destruct (attempt_failure (net_reply w (net_gets w) url)) as [e1|] eqn:H1.
  2: { left. destruct (http_get_loop_pass 1 [2; 3] url None w H1) as (r & _ & ->). eauto. }
  rewrite (http_get_loop_fail 1 _ url None w e1 H1). fold w1.
  destruct (attempt_failure (net_reply w1 (net_gets w1) url)) as [e2|] eqn:H2.
  2: { right. left.
       destruct (http_get_loop_pass 2 [3] url (Some e1) w1 H2) as (r & _ & ->). eauto. }
  rewrite (http_get_loop_fail 2 _ url _ w1 e2 H2). fold w2.
  destruct (attempt_failure (net_reply w2 (net_gets w2) url)) as [e3|] eqn:H3.
  2: { right. right. left.
       destruct (http_get_loop_pass 3 [] url (Some e2) w2 H3) as (r & _ & ->). eauto. }
  rewrite (http_get_loop_fail 3 _ url _ w2 e3 H3). fold w3.
  right. right. right. exists e3. split; [reflexivity | exact H3].
Qed.

Lemma http_get_at_most_three (url : string) (w : net) :
  (net_gets w < net_gets (snd (http_get url w)) <= net_gets w + 3)%nat.
Proof.
  destruct (http_get_cases url w) as [(r & ->) | [(r & ->) | [(r & ->) | (e & -> & _)]]];
    cbn [snd after_reply after_failure net_gets]; lia.
Qed.

(** C2, on the code. When the three attempts of [http_get] fail, it raises
    the third failure, after three requests and three sleeps: it sleeps
    three times the attempt number plus the jitter after every failed
    attempt, the last one included, where the specification has it sleep
    between attempts only.  With a jitter in [0,1) the sleep before raising
    lasts between nine and ten seconds. *)
Theorem http_get_sleeps_after_last_attempt (url : string) (w : net) (e1 e2 e3 : exn) :
  attempt_failure (net_reply w (net_gets w) url) = Some e1 ->
  attempt_failure (net_reply w (S (net_gets w)) url) = Some e2 ->
  attempt_failure (net_reply w (S (S (net_gets w))) url) = Some e3 ->
  let j1 := net_random w (net_randoms w) in
  let j2 := net_random w (S (net_randoms w)) in
  let j3 := net_random w (S (S (net_randoms w))) in
  fst (http_get url w) = Raise e3
  /\ net_trace (snd (http_get url w))
     = (net_trace w ++ [ EvGet url; EvSleep (inject_Z (RETRY_BASE_SLEEP * 1) + j1)%Q;
                         EvGet url; EvSleep (inject_Z (RETRY_BASE_SLEEP * 2) + j2)%Q;
                         EvGet url; EvSleep (inject_Z (RETRY_BASE_SLEEP * 3) + j3)%Q ])%list
  /\ ((0 <= j3)%Q -> (j3 < 1)%Q ->
      (9 <= inject_Z (RETRY_BASE_SLEEP * 3) + j3)%Q
      /\ (inject_Z (RETRY_BASE_SLEEP * 3) + j3 < 10)%Q).
Proof.
  intros H1 H2 H3 j1 j2 j3. rewrite http_get_unfold.
  rewrite (http_get_loop_fail 1 _ url None w e1 H1).
  rewrite (http_get_loop_fail 2 _ url _ (after_failure url 1 w) e2 H2).
  rewrite (http_get_loop_fail 3 _ url _ (after_failure url 2 (after_failure url 1 w)) e3 H3).
  cbn [http_get_loop raise fst snd after_failure net_trace net_reply net_random
       net_gets net_randoms].
  split; [reflexivity|]. split.
  - fold j1 j2 j3. rewrite <- !app_assoc. reflexivity.
  - intros Hlo Hhi. change (inject_Z (RETRY_BASE_SLEEP * 3)) with (9 # 1)%Q.
    split.
    + rewrite <- (Qplus_0_r 9) at 1. by apply Qplus_le_r.
    + change 10%Q with (9 + 1)%Q. by apply Qplus_lt_r.
Qed.

Lemma http_get_sleeps_after_last_attempt_witness :
  fst (http_get "https://www.ethiopiantender.com/" (dead_net (1 # 2)))
  = Raise (RequestException "connection refused")
  /\ net_trace (snd (http_get "https://www.ethiopiantender.com/" (dead_net (1 # 2))))
     = [ EvGet "https://www.ethiopiantender.com/"; EvSleep (inject_Z (RETRY_BASE_SLEEP * 1) + (1 # 2))%Q;
         EvGet "https://www.ethiopiantender.com/"; EvSleep (inject_Z (RETRY_BASE_SLEEP * 2) + (1 # 2))%Q;
         EvGet "https://www.ethiopiantender.com/"; EvSleep (inject_Z (RETRY_BASE_SLEEP * 3) + (1 # 2))%Q ].
Proof.
  pose proof (http_get_sleeps_after_last_attempt "https://www.ethiopiantender.com/"
                (dead_net (1 # 2)) _ _ _ eq_refl eq_refl eq_refl) as (H1 & H2 & _).
  split; [exact H1 | exact H2].
Defined.

(* --------------------------------------------------------------------- *)
(** ** Calendar arithmetic *)
(* --------------------------------------------------------------------- *)

(** The date of a day number denotes that day number. *)
Lemma civil_roundtrip (z : Z) :
  let '(y, m, d) := Calendar.civil_from_days z in Calendar.days_from_civil y m d = z.
Proof.
  unfold Calendar.civil_from_days.
  set (z' := z + 719468).
  set (era := z' / 146097).
  set (doe := z' - era * 146097).
  assert (Hdoe : 0 <= doe < 146097).
  { subst doe era. pose proof (Z.mod_pos_bound z' 146097 eq_refl) as Hm.
    rewrite Z.mod_eq in Hm by lia. lia. }
  set (yoe := (doe - doe / 1460 + doe / 36524 - doe / 146096) / 365).
  assert (Hyoe : 0 <= yoe <= 399).
  { subst yoe. clearbody doe. clear -Hdoe. Z.div_mod_to_equations. lia. }
  set (doy := doe - (365 * yoe + yoe / 4 - yoe / 100)).
  assert (Hdoy : 0 <= doy <= 365).
  { subst doy yoe. clearbody doe. clear -Hdoe. Z.div_mod_to_equations. lia. }
  set (mp := (5 * doy + 2) / 153).
  assert (Hmp : 0 <= mp <= 11).
  { subst mp. clearbody doy. clear -Hdoy. Z.div_mod_to_equations. lia. }
  set (d := doy - (153 * mp + 2) / 5 + 1).
  unfold Calendar.days_from_civil.
  assert (Hera : (yoe + era * 400) / 400 = era).
  { clearbody yoe era. clear -Hyoe. Z.div_mod_to_equations. lia. }
  destruct (Z.ltb_spec mp 10) as [Hlt|Hge].
  - destruct (Z.leb_spec (mp + 3) 2) as [H2|H2]; [lia|].
    destruct (Z.ltb_spec 2 (mp + 3)) as [H3|H3]; [|lia].
    rewrite Hera. replace (mp + 3 - 3) with mp by lia.
    replace (yoe + era * 400 - era * 400) with yoe by lia.
    subst d doy doe z'. lia.
  - destruct (Z.leb_spec (mp - 9) 2) as [H2|H2]; [|lia].
    destruct (Z.ltb_spec 2 (mp - 9)) as [H3|H3]; [lia|].
    replace (yoe + era * 400 + 1 - 1) with (yoe + era * 400) by lia.
    rewrite Hera. replace (mp - 9 + 9) with mp by lia.
    replace (yoe + era * 400 - era * 400) with yoe by lia.
    subst d doy doe z'. lia.
Qed.

(** The target of the heartbeat: the configured hour of the current UTC
    date, read as local time. *)
Lemma target_today_eq (cfg : config) (utc_offset now : Z) :
  target_today cfg utc_offset now = utc_target cfg now - utc_offset.
Proof.
  unfold target_today, Calendar.gmtime, Calendar.mktime, utc_target, utc_day.
  pose proof (civil_roundtrip (now / 86400)) as Hrt.
  destruct (Calendar.civil_from_days (now / 86400)) as [[y m] d].
  cbn [Calendar.tm_year Calendar.tm_mon Calendar.tm_mday Calendar.tm_hour
       Calendar.tm_min Calendar.tm_sec].
  rewrite Hrt. lia.
Qed.

(* --------------------------------------------------------------------- *)
(** ** The heartbeat *)
(* --------------------------------------------------------------------- *)

Lemma accepted_of_outcome (s : smtp_session) (u : unit) :
  session_outcome s = Ok u -> accepted s = true.
Proof.
  unfold session_outcome, accepted.
  by destruct (smtp_connect s), (smtp_quit s), (smtp_starttls s), (smtp_login s),
       (smtp_sendmail s).
Qed.

Lemma late_failure_ok (s : smtp_session) (u : unit) :
  session_outcome s = Ok u -> late_failure s = false.
Proof. unfold late_failure. intros ->. apply andb_false_r. Qed.

Lemma session_outcome_ok : session_outcome smtp_ok = Ok tt.
Proof. reflexivity. Qed.

(** [send_email] in closed form: it raises what the session comes to, and
    the message is with the server as soon as [sendmail] has returned. *)
Lemma send_email_eq (cfg : config) (smtp : smtp_session) (subject html : string)
    (outbox : list email) :
  send_email cfg smtp subject html outbox
  = if can_send cfg
    then (session_outcome smtp,
          if accepted smtp
          then (outbox ++ [Email subject html (default "" (SMTP_USER cfg)) (ALERT_TO cfg)])%list
          else outbox)
    else (Ok tt, outbox).
Proof.
  unfold send_email, can_send.
  destruct (truthy (SMTP_USER cfg) && truthy (SMTP_PASS cfg) && nonempty (ALERT_TO cfg));
    cbn [negb]; [|reflexivity].
  unfold session_outcome, accepted.
  by destruct (smtp_connect smtp), (smtp_starttls smtp), (smtp_login smtp),
       (smtp_sendmail smtp) as [[]|], (smtp_quit smtp).
Qed.

(** [maybe_send_heartbeat] in closed form. *)
Lemma maybe_send_heartbeat_eq (cfg : config) (utc_offset now : Z) (smtp : smtp_session)
    (w : world) :
  maybe_send_heartbeat cfg utc_offset now smtp w
  = if HEARTBEAT_ENABLE cfg
       && (utc_target cfg now - utc_offset <=? now)
       && (last_heartbeat w <? utc_target cfg now - utc_offset)
    then
      if can_send cfg then
        match session_outcome smtp with
        | Ok _ => (Ok true,
                   World (Stored (<[HEARTBEAT_KEY := now]> (load_state (w_file w))))
                         (w_outbox w ++ [heartbeat_mail cfg]))
        | Raise e => (Raise e,
                      World (w_file w)
                            (if accepted smtp then w_outbox w ++ [heartbeat_mail cfg]
                             else w_outbox w))
        end
      else (Ok true,
            World (Stored (<[HEARTBEAT_KEY := now]> (load_state (w_file w)))) (w_outbox w))
    else (Ok false, w).
Proof.
  unfold maybe_send_heartbeat, last_heartbeat. rewrite target_today_eq, send_email_eq.
  fold (heartbeat_mail cfg).
  destruct (HEARTBEAT_ENABLE cfg); [|reflexivity]. cbn [negb andb].
  destruct (_ && _); [|reflexivity].
  destruct (can_send cfg); [|reflexivity].
  destruct (session_outcome smtp) as [u|e] eqn:Hout; [|reflexivity].
  by rewrite (accepted_of_outcome smtp u Hout).
Qed.

(** One call either changes nothing, or it was due (the target is reached
    and the last heartbeat precedes it); a due call records the current
    time and hands over at most one heartbeat, unless its session raises:
    then the file stays as it was, and a heartbeat is handed over exactly
    when the session raised after the server took it. *)
Lemma heartbeat_step (cfg : config) (utc_offset now : Z) (smtp : smtp_session) (w : world) :
  let w' := snd (maybe_send_heartbeat cfg utc_offset now smtp w) in
  (w_file w' = w_file w /\ w_outbox w' = w_outbox w)
  \/ (utc_target cfg now - utc_offset <= now
      /\ last_heartbeat w < utc_target cfg now - utc_offset
      /\ ((last_heartbeat w' = now
           /\ (w_outbox w' = w_outbox w
               \/ w_outbox w' = (w_outbox w ++ [heartbeat_mail cfg])%list))
          \/ (w_file w' = w_file w /\ late_failure smtp = true
              /\ w_outbox w' = (w_outbox w ++ [heartbeat_mail cfg])%list))).
Proof.
  intros w'. subst w'. rewrite maybe_send_heartbeat_eq.
  destruct (HEARTBEAT_ENABLE cfg); [|by left]. cbn [andb].
  destruct (Z.leb_spec (utc_target cfg now - utc_offset) now) as [Hle|]; [|by left].
  destruct (Z.ltb_spec (last_heartbeat w) (utc_target cfg now - utc_offset)) as [Hlt|];
    [|by left].
  cbn [andb].
  assert (Hrec : forall outbox,
             last_heartbeat (World (Stored (<[HEARTBEAT_KEY := now]> (load_state (w_file w))))
                                   outbox) = now).
  { intros outbox. unfold last_heartbeat. cbn [w_file load_state].
    by rewrite lookup_insert_eq. }
  destruct (can_send cfg).
  - destruct (session_outcome smtp) as [u|e] eqn:Hout; cbn [snd w_file w_outbox].
    + right. rewrite Hrec. eauto 6.
    + unfold late_failure. rewrite Hout.
      destruct (accepted smtp); cbn [andb negb is_ok]; [|by left].
      right. eauto 8.
  - cbn [snd w_file w_outbox]. right. rewrite Hrec. eauto 6.
Qed.

(** Calls that all fall on one UTC day share one target [T]; when no
    session raises after the server took its message, at most one
    heartbeat goes out over such calls, and none once the last heartbeat
    on record has reached [T]. *)
Lemma heartbeat_calls_once (cfg : config) (utc_offset T : Z) (calls : list (Z * smtp_session)) :
  Forall (fun c => utc_target cfg (fst c) - utc_offset = T /\ late_failure (snd c) = false)
         calls ->
  forall w,
    let w' := heartbeat_calls cfg utc_offset calls w in
    (T <= last_heartbeat w -> w_outbox w' = w_outbox w)
    /\ (w_outbox w' = w_outbox w
        \/ w_outbox w' = (w_outbox w ++ [heartbeat_mail cfg])%list).
Proof.
  induction 1 as [|[now smtp] calls [Hc Hlate] _ IH]; intros w; cbn [heartbeat_calls fold_left].
  - split; [done | by left].
  - cbn [fst snd] in *.
    fold (heartbeat_calls cfg utc_offset calls
            (snd (maybe_send_heartbeat cfg utc_offset now smtp w))).
    destruct (IH (snd (maybe_send_heartbeat cfg utc_offset now smtp w))) as [IH1 IH2].
    destruct (heartbeat_step cfg utc_offset now smtp w)
      as [[Hf Ho] | (Hle & Hlt & [[Hlast Ho] | (_ & Hl & _)])].
    + assert (Hl : last_heartbeat (snd (maybe_send_heartbeat cfg utc_offset now smtp w))
                   = last_heartbeat w) by (unfold last_heartbeat; by rewrite Hf).
      rewrite Hl in IH1. rewrite Ho in IH1, IH2. by split.
    + rewrite Hlast in IH1. rewrite IH1 by lia. split; [lia | done].
    + congruence.
Qed.


(** The time is recorded only after [send_email] has returned.  A session
    that raises at QUIT, after the server took the heartbeat, leaves no
    mark: the next call of the same UTC day mails a second heartbeat. *)
Example heartbeat_twice_after_late_failure :
  let cfg := sample_config true in
  let w := World Absent [] in
  utc_day 1700000000 = utc_day 1700000100
  /\ maybe_send_heartbeat cfg 0 1700000000 smtp_quit_fails w
     = (Raise (SMTPException "QUIT: 421"), World Absent [heartbeat_mail cfg])
  /\ w_outbox (heartbeat_calls cfg 0 [(1700000000, smtp_quit_fails); (1700000100, smtp_ok)] w)
     = [heartbeat_mail cfg; heartbeat_mail cfg].
Proof. split; [|split]; vm_compute; reflexivity. Qed.



(** The target is the configured hour of the UTC date read as local time:
    three hours east of Greenwich the heartbeat of six o'clock goes out at
    four in the morning UTC. *)
Example heartbeat_follows_local_time :
  let cfg := sample_config true in
  let now := 1699934400 in
  now < utc_target cfg now
  /\ fst (maybe_send_heartbeat cfg 10800 now smtp_ok (World Absent [])) = Ok true.
Proof. split; vm_compute; reflexivity. Qed.

(* ===================================================================== *)
(** * Further properties of the code *)
(* ===================================================================== *)

(* --------------------------------------------------------------------- *)
(** ** More on the keyword store *)
(* --------------------------------------------------------------------- *)

Lemma is_space_lower_char (c : ascii) : is_space (lower_char c) = is_space c.
Proof. destruct c as [[] [] [] [] [] [] [] []]; reflexivity. Qed.

Lemma lstrip_lower (s : string) : lstrip (lower s) = lower (lstrip s).
Proof.
  induction s as [|c s IH]; [reflexivity|]. simpl.
  rewrite is_space_lower_char. by destruct (is_space c).
Qed.

Lemma rstrip_lower (s : string) : rstrip (lower s) = lower (rstrip s).
Proof.
  induction s as [|c s IH]; [reflexivity|]. simpl. rewrite IH, is_space_lower_char.
  destruct (rstrip s); simpl; [by destruct (is_space c) | reflexivity].
Qed.

Lemma rstrip_cons_keep (c : ascii) (r : string) :
  is_space c = false -> rstrip (String c r) = String c (rstrip r).
Proof. intros Hc. simpl. rewrite Hc. by destruct (rstrip r). Qed.

Lemma rstrip_idem (s : string) : rstrip (rstrip s) = rstrip s.
Proof.
  induction s as [|c s IH]; [reflexivity|]. simpl.
  destruct (rstrip s) as [|d r'] eqn:E.
  - destruct (is_space c) eqn:Hc; simpl; [reflexivity | by rewrite Hc].
  - cbn [rstrip]. cbn [rstrip] in IH. by rewrite IH.
Qed.

Lemma lstrip_head (s : string) :
  lstrip s = EmptyString \/ exists c r, lstrip s = String c r /\ is_space c = false.
Proof.
  induction s as [|c s IH]; [by left|]. simpl.
  destruct (is_space c) eqn:Hc; [exact IH|]. right. by exists c, s.
Qed.

Lemma strip_idem (s : string) : strip (strip s) = strip s.
Proof.
  unfold strip. destruct (lstrip_head s) as [->|(c & r & -> & Hc)]; [reflexivity|].
  rewrite (rstrip_cons_keep c r Hc). cbn [lstrip]. rewrite Hc.
  rewrite (rstrip_cons_keep c _ Hc). by rewrite rstrip_idem.
Qed.

Lemma strip_lower (s : string) : strip (lower s) = lower (strip s).
Proof. unfold strip. by rewrite lstrip_lower, rstrip_lower. Qed.

Lemma nonempty_lower (s : string) : nonempty (lower s) = nonempty s.
Proof. by destruct s. Qed.

Lemma lower_fixed_no_capital (k : string) :
  lower k = k -> Forall (fun c => ~ (65 <= code c <= 90)) (encode_utf8 k).
Proof.
  induction k as [|c k IH]; cbn [lower encode_utf8]; [constructor|].
  intros [= Hc Hk]. constructor; [|by apply IH].
  intros Hcap. apply (f_equal code) in Hc. rewrite code_lower_char in Hc.
  rewrite (proj2 (Z.leb_le _ _) (proj1 Hcap)), (proj2 (Z.leb_le _ _) (proj2 Hcap)) in Hc.
  cbn [andb] in Hc. lia.
Qed.

Lemma is_space_codes (c : ascii) : is_space c = true <-> code c ∈ white_space_codes.
Proof.
  unfold is_space, white_space_codes. rewrite !elem_of_cons, elem_of_nil.
  rewrite orb_true_iff, !andb_true_iff, !Z.leb_le.
  pose proof (code_range c). lia.
Qed.

Lemma app_eq_nil_str (a b : string) : a +:+ b = EmptyString -> a = EmptyString /\ b = EmptyString.
Proof. destruct a; [by intros <-|discriminate]. Qed.

Lemma rstrip_last (s r : string) (c : ascii) :
  rstrip s = r +:+ String c EmptyString -> is_space c = false.
Proof.
  revert r. induction s as [|a s IH]; intros r; cbn [rstrip].
  - intros H. symmetry in H. by apply app_eq_nil_str in H as [_ ?].
  - destruct (rstrip s) as [|d r''] eqn:E.
    + destruct (is_space a) eqn:Ha.
      * intros H. symmetry in H. by apply app_eq_nil_str in H as [_ ?].
      * destruct r as [|a' r0]; [by intros [= <-]|].
        rewrite app_cons_str. intros [= _ H]. symmetry in H.
        by apply app_eq_nil_str in H as [_ ?].
    + destruct r as [|a' r0]; [discriminate|].
      rewrite app_cons_str. intros [= _ H]. by apply (IH r0).
Qed.

(** What [str.strip] returns neither starts nor ends with white space. *)
Lemma strip_ends (s : string) :
  (forall c r, strip s = String c r -> is_space c = false)
  /\ (forall r c, strip s = r +:+ String c EmptyString -> is_space c = false).
Proof.
  split.
  - intros c r. unfold strip.
    destruct (lstrip_head s) as [->|(c' & r' & -> & Hc')]; [discriminate|].
    rewrite (rstrip_cons_keep c' r' Hc'). by intros [= <- _].
  - intros r c. unfold strip. apply rstrip_last.
Qed.

Lemma substring_refl (t : string) : substring t t.
Proof. exists EmptyString, EmptyString. by rewrite app_nil_l_str, app_nil_r_str. Qed.

Lemma substring_trans (a b c : string) : substring a b -> substring b c -> substring a c.
Proof.
  intros (x & y & ->) (x' & y' & ->). exists (x' +:+ x), (y +:+ y').
  by rewrite !app_assoc_str.
Qed.

Lemma lstrip_substring (s : string) : substring (lstrip s) s.
Proof.
  induction s as [|c s IH]; [apply substring_refl|]. cbn [lstrip].
  destruct (is_space c); [|apply substring_refl].
  destruct IH as (a & b & H). exists (String c a), b. rewrite app_cons_str. by f_equal.
Qed.

Lemma rstrip_substring (s : string) : substring (rstrip s) s.
Proof.
  induction s as [|c s IH]; [apply substring_refl|]. cbn [rstrip].
  assert (Hpre : exists b, s = rstrip s +:+ b).
  { clear IH. induction s as [|d s IHs]; [by exists EmptyString|]. cbn [rstrip].
    destruct IHs as (b & Hb).
    destruct (rstrip s) as [|e r'] eqn:E.
    - destruct (is_space d).
      + exists (String d s). by rewrite app_nil_l_str.
      + exists s. by rewrite app_cons_str, app_nil_l_str.
    - exists b. rewrite app_cons_str. by f_equal. }
  destruct Hpre as (b & Hb).
  destruct (rstrip s) as [|e r'] eqn:E.
  - destruct (is_space c).
    + exists EmptyString, (String c s). by rewrite !app_nil_l_str.
    + exists EmptyString, s. by rewrite app_nil_l_str, app_cons_str, app_nil_l_str.
  - exists EmptyString, b. rewrite app_nil_l_str, app_cons_str. by f_equal.
Qed.

Lemma strip_substring (s : string) : substring (strip s) s.
Proof.
  unfold strip. eapply substring_trans; [apply rstrip_substring | apply lstrip_substring].
Qed.

Lemma rev_app_app (a b c : string) : String.rev_app a b +:+ c = String.rev_app a (b +:+ c).
Proof.
  revert b. induction a as [|x a IH]; intros b; [reflexivity|].
  cbn [String.rev_app]. by rewrite IH, app_cons_str.
Qed.

(** Every line [str.splitlines] returns is a run of consecutive characters
    of the text. *)
Lemma splitlines_from_substring (s cur ln : string) :
  In ln (splitlines_from cur s) -> substring ln (String.rev cur +:+ s).
Proof.
  remember (String.length s) as n eqn:Hn. revert s cur Hn.
  induction n as [n IH] using lt_wf_ind. intros s cur Hn.
  destruct s as [|c s]; cbn [splitlines_from].
  - destruct cur; [intros []|]. intros [<-|[]]. rewrite app_nil_r_str. apply substring_refl.
  - simpl in Hn. destruct (is_linebreak c).
    + intros [<-|Hin].
      * exists EmptyString, (String c s). by rewrite app_nil_l_str.
      * assert (Hrest : substring ln s).
        { destruct s as [|d s']; [destruct Hin|]. simpl in Hn.
          destruct ((code c =? 13) && (code d =? 10)).
          - apply (IH (String.length s')) in Hin; [|lia|reflexivity].
            change (substring ln s') in Hin. destruct Hin as (a & b & Hs).
            exists (String d a), b. rewrite app_cons_str. by f_equal.
          - apply (IH (String.length (String d s'))) in Hin; [|simpl; lia|reflexivity].
            exact Hin. }
        destruct Hrest as (a & b & Hs).
        exists (String.rev cur +:+ String c a), b.
        rewrite !app_assoc_str, app_cons_str. do 2 f_equal. exact Hs.
    + intros Hin. apply (IH (String.length s)) in Hin; [|lia|reflexivity].
      unfold String.rev in *. cbn [String.rev_app] in Hin.
      rewrite rev_app_app in Hin. rewrite rev_app_app. exact Hin.
Qed.

Lemma splitlines_substring (content ln : string) :
  In ln (splitlines content) -> substring ln content.
Proof. intros H. by apply splitlines_from_substring in H. Qed.

Lemma occurs_ci_lower_substring (m text : string) :
  substring m text -> occurs_ci (lower m) text.
Proof.
  intros (a & b & ->). exists a, m, b. split; [reflexivity|].
  apply lower_eq_ci, lower_idem.
Qed.

(** X1. A keyword read from an ASCII keywords file is never empty, holds
    no capital letter, neither starts nor ends with white space, and
    occurs in the file as a run of consecutive characters, letter case
    aside; so no keyword matches every text, and a line is matched
    whatever its case and padding. *)
Theorem file_keywords_normalised (content : string) (k : string) :
  ascii_only content = true ->
  k ∈ keyword_set (Some content) ->
  k <> EmptyString
  /\ Forall (fun c => ~ (65 <= code c <= 90)) (encode_utf8 k)
  /\ (forall c r, k = String c r -> code c ∉ white_space_codes)
  /\ (forall r c, k = r +:+ String c EmptyString -> code c ∉ white_space_codes)
  /\ occurs_ci k content.
Proof.
  intros _. unfold keyword_set. rewrite elem_of_list_to_set. cbn [load_keywords].
  intros Hk. apply list_elem_of_In, in_map_iff in Hk as (ln & <- & Hln).
  apply filter_In in Hln as [Hln Hne].
  assert (Hstrip : strip (lower (strip ln)) = lower (strip ln))
    by (by rewrite strip_lower, strip_idem).
  destruct (strip_ends (lower (strip ln))) as [Hfirst Hlast]. rewrite Hstrip in Hfirst, Hlast.
  split; [|split; [|split; [|split]]].
  - intros H. apply (f_equal nonempty) in H. rewrite nonempty_lower, Hne in H. discriminate.
  - apply lower_fixed_no_capital, lower_idem.
  - intros c r H Hc. apply is_space_codes in Hc. by rewrite (Hfirst c r H) in Hc.
  - intros r c H Hc. apply is_space_codes in Hc. by rewrite (Hlast r c H) in Hc.
  - apply occurs_ci_lower_substring.
    eapply substring_trans; [apply strip_substring | by apply splitlines_substring].
Qed.

Lemma file_keywords_normalised_witness :
  "machine learning" <> EmptyString
  /\ Forall (fun c => ~ (65 <= code c <= 90)) (encode_utf8 "machine learning")
  /\ (forall c r, "machine learning" = String c r -> code c ∉ white_space_codes)
  /\ (forall r c, "machine learning" = r +:+ String c EmptyString
                  -> code c ∉ white_space_codes)
  /\ occurs_ci "machine learning" ("ERP" +:+ NL +:+ "  Machine Learning " +:+ NL).
Proof.
  apply (file_keywords_normalised ("ERP" +:+ NL +:+ "  Machine Learning " +:+ NL));
    [reflexivity | vm_compute; reflexivity].
Defined.

Lemma blank_rev_app (a b : string) :
  blank (String.rev_app a b) = blank a && blank b.
Proof.
  revert b. induction a as [|c a IH]; intros b; [reflexivity|].
  cbn [String.rev_app blank]. rewrite IH. cbn [blank].
  destruct (is_space c), (blank a), (blank b); reflexivity.
Qed.

Lemma blank_rev (s : string) : blank (String.rev s) = blank s.
Proof. unfold String.rev. rewrite blank_rev_app. simpl. by rewrite andb_true_r. Qed.

Lemma lstrip_blank (s : string) : blank s = true -> lstrip s = EmptyString.
Proof.
  induction s as [|c s IH]; [reflexivity|]. simpl.
  intros [Hc Hs]%andb_true_iff. rewrite Hc. by apply IH.
Qed.

Lemma strip_blank (s : string) : blank s = true -> strip s = EmptyString.
Proof. intros H. unfold strip. by rewrite (lstrip_blank s H). Qed.

Lemma splitlines_from_blank (s cur : string) :
  blank cur = true -> blank s = true ->
  Forall (fun ln => blank ln = true) (splitlines_from cur s).
Proof.
  remember (String.length s) as n eqn:Hn. revert s cur Hn.
  induction n as [n IH] using lt_wf_ind. intros s cur Hn Hcur Hs.
  destruct s as [|c s]; cbn [splitlines_from].
  - destruct cur; [constructor|]. constructor; [by rewrite blank_rev | constructor].
  - cbn [blank] in Hs. apply andb_true_iff in Hs as [Hc Hs]. simpl in Hn.
    destruct (is_linebreak c).
    + constructor; [by rewrite blank_rev|].
      destruct s as [|d s']; [constructor|].
      cbn [blank] in Hs. apply andb_true_iff in Hs as [Hd Hs']. simpl in Hn.
      destruct ((code c =? 13) && (code d =? 10)).
      * apply (IH (String.length s')); [lia | reflexivity | reflexivity | done].
      * apply (IH (String.length (String d s'))); [simpl; lia | reflexivity | reflexivity |].
        cbn [blank]. by rewrite Hd, Hs'.
    + apply (IH (String.length s)); [lia | reflexivity | | done].
      cbn [blank]. by rewrite Hc, Hcur.
Qed.

(** X2. A keywords file that exists but holds only white space (an empty
    file, blank lines) gives an empty keyword set, with no fall-back to the
    built-in list: every text then scores zero and a cycle accepts no
    candidate, whatever the adapters emit. *)
Theorem blank_keywords_file_silences (content : string) :
  blank content = true ->
  load_keywords (Some content) = []
  /\ keyword_set (Some content) = ∅
  /\ (forall text, relevant_score (keyword_set (Some content)) text = 0)
  /\ (forall outs clock file,
        fst (run_cycle (keyword_set (Some content)) outs clock file)
        = ([], Z.of_nat (length (items_of outs)))).
Proof.
  intros Hb.
  assert (Hl : load_keywords (Some content) = []).
  { cbn [load_keywords]. rewrite filter_none; [reflexivity|].
    intros ln Hln. pose proof (splitlines_from_blank content EmptyString eq_refl Hb) as Hall.
    rewrite Forall_forall in Hall. apply list_elem_of_In in Hln.
    by rewrite (strip_blank ln (Hall ln Hln)). }
  assert (Hs : keyword_set (Some content) = ∅) by (unfold keyword_set; by rewrite Hl).
  assert (Hz : forall text, relevant_score (keyword_set (Some content)) text = 0).
  { intros text. rewrite Hs. unfold relevant_score. by rewrite elements_empty. }
  split; [done|]. split; [done|]. split; [done|].
  intros outs clock file. rewrite run_cycle_eq. cbn [fst]. f_equal.
  apply filter_none. intros n _. unfold accepts. rewrite Hz. by rewrite andb_false_r.
Qed.

Lemma blank_keywords_file_silences_witness :
  load_keywords (Some ("  " +:+ NL +:+ NL)) = []
  /\ keyword_set (Some ("  " +:+ NL +:+ NL)) = ∅
  /\ (forall text, relevant_score (keyword_set (Some ("  " +:+ NL +:+ NL))) text = 0)
  /\ (forall outs clock file,
        fst (run_cycle (keyword_set (Some ("  " +:+ NL +:+ NL))) outs clock file)
        = ([], Z.of_nat (length (items_of outs)))).
Proof. apply (blank_keywords_file_silences ("  " +:+ NL +:+ NL)). reflexivity. Defined.

(** X3. The score lies between zero and the number of keywords, and grows
    with the keyword set: adding keywords never lowers the score of a
    text. *)
Theorem relevant_score_bounds (KW KW' : gset string) (text : string) :
  0 <= relevant_score KW text <= Z.of_nat (size KW)
  /\ (KW ⊆ KW' -> relevant_score KW text <= relevant_score KW' text).
Proof.
  destruct (relevant_score_hits KW text) as (hits & Hhits & ->).
  split.
  - split; [lia|]. apply inj_le, subseteq_size. intros k Hk. by apply Hhits in Hk as [? _].
  - intros Hsub. destruct (relevant_score_hits KW' text) as (hits' & Hhits' & ->).
    apply inj_le, subseteq_size. intros k Hk. apply Hhits in Hk as [Hk Hc].
    apply Hhits'. split; [by apply Hsub | done].
Qed.

(* --------------------------------------------------------------------- *)
(** ** More on fingerprints *)
(* --------------------------------------------------------------------- *)

Lemma encode_decode_utf8 (l : list ascii) : encode_utf8 (decode_utf8 l) = l.
Proof. induction l as [|c l IH]; simpl; [reflexivity | by rewrite IH]. Qed.

Lemma hex_of_byte_chars (c : ascii) :
  Forall (fun h => is_hex_char h = true) (Sha256.hex_of_byte c).
Proof. destruct c as [[] [] [] [] [] [] [] []]; repeat constructor. Qed.

(** X5. A fingerprint is a text of sixty-four characters, each a digit or a
    letter from a to f in lower case, whatever the four fields are. *)
Theorem uid_hash_lower_hex (title buyer deadline url : string) :
  length (encode_utf8 (uid_hash title buyer deadline url)) = 64%nat
  /\ Forall (fun c => is_hex_char c = true) (encode_utf8 (uid_hash title buyer deadline url)).
Proof.
  unfold uid_hash, Sha256.hexdigest. rewrite encode_decode_utf8.
  set (m := encode_utf8 _). split.
  - pose proof (length_digest m) as H.
    destruct (Sha256.digest m) as [|b0 l]; [discriminate|].
    do 31 (destruct l as [|? l]; [discriminate|]).
    destruct l; [reflexivity | discriminate].
  - induction (Sha256.digest m) as [|c l IH]; [constructor|].
    cbn [flat_map]. apply Forall_app. split; [apply hex_of_byte_chars | exact IH].
Qed.

(** X4. The four fields are joined by a bar that is not escaped: moving a
    bar-delimited piece from the end of the title to the front of the buyer
    gives another tuple with the same fingerprint, so a cycle whose state
    holds the one skips the other as already seen. *)
Theorem uid_hash_separator_ambiguity (t x b d u : string) :
  t +:+ "|" +:+ x <> t
  /\ uid_hash (t +:+ "|" +:+ x) b d u = uid_hash t (x +:+ "|" +:+ b) d u
  /\ (forall KW clock (state : gmap string Z) (v : Z) (s s' : string),
        state !! notice_uid (notice (t +:+ "|" +:+ x) b d u s) = Some v ->
        fst (run_cycle KW [Ok [notice t (x +:+ "|" +:+ b) d u s']] clock (Stored state))
        = ([], 1)).
Proof.
  assert (Heq : uid_hash (t +:+ "|" +:+ x) b d u = uid_hash t (x +:+ "|" +:+ b) d u).
  { unfold uid_hash, uid_preimage. by rewrite !app_assoc_str. }
  split; [|split; [exact Heq|]].
  - intros H. apply (f_equal String.length) in H. rewrite !length_app_str in H.
    simpl in H. lia.
  - intros KW clock state v s s' Hv. rewrite run_cycle_eq. cbn [fst load_state]. f_equal.
    apply filter_none. intros n [<-|[]]. unfold accepts.
    rewrite bool_decide_eq_true_2; [reflexivity|].
    apply elem_of_dom. exists v. rewrite notice_uid_notice in *. by rewrite <- Heq.
Qed.

(** X6. Only the title, the buyer, the deadline and the link of a notice
    enter its fingerprint: setting any other key, such as the source tag,
    leaves it unchanged, and a notice that lacks one of the four keys has
    the fingerprint of the notice that holds the empty text there. *)
Theorem notice_uid_frame (n : gmap string string) (k v : string) :
  (k <> "title" -> k <> "buyer" -> k <> "deadline" -> k <> "url" ->
   notice_uid (<[k := v]> n) = notice_uid n)
  /\ (n !! k = None -> notice_uid (<[k := ""]> n) = notice_uid n).
Proof.
  split.
  - intros H1 H2 H3 H4. unfold notice_uid, get.
    by rewrite !lookup_insert_ne by done.
  - intros Hk. unfold notice_uid, get.
    destruct (decide (k = "title")) as [->|H1];
      [rewrite lookup_insert_eq, Hk, !lookup_insert_ne by done; reflexivity|].
    destruct (decide (k = "buyer")) as [->|H2];
      [rewrite lookup_insert_eq, Hk, !lookup_insert_ne by done; reflexivity|].
    destruct (decide (k = "deadline")) as [->|H3];
      [rewrite lookup_insert_eq, Hk, !lookup_insert_ne by done; reflexivity|].
    destruct (decide (k = "url")) as [->|H4];
      [rewrite lookup_insert_eq, Hk, !lookup_insert_ne by done; reflexivity|].
    by rewrite !lookup_insert_ne by done.
Qed.

Lemma notice_uid_frame_witness :
  notice_uid (<["source" := "GlobalTenders (ET Software)"]> (erp_notice "EthiopianTender.com"))
  = notice_uid (erp_notice "EthiopianTender.com")
  /\ notice_uid (<["buyer" := ""]> (<["title" := "ERP System Tender"]> ∅))
     = notice_uid (<["title" := "ERP System Tender"]> ∅).
Proof.
  split.
  - by apply (proj1 (notice_uid_frame (erp_notice "EthiopianTender.com") "source"
                       "GlobalTenders (ET Software)")).
  - by apply (proj2 (notice_uid_frame (<["title" := "ERP System Tender"]> ∅) "buyer" "")).
Defined.

(* --------------------------------------------------------------------- *)
(** ** More on the HTTP fetcher *)
(* --------------------------------------------------------------------- *)

Lemma attempt_failure_None (o : result response) :
  attempt_failure o = None ->
  exists r, o = Ok r /\ ~ (400 <= status_code r < 600).
Proof.
  destruct o as [r|e]; [|discriminate]. cbn [attempt_failure].
  destruct (Z.leb_spec 400 (status_code r)), (Z.ltb_spec (status_code r) 600);
    cbn [andb]; try discriminate; intros _; exists r; (split; [reflexivity | lia]).
Qed.

(** X7. When [http_get] returns a reply, it is the reply of the first of
    its at most three requests that neither failed nor came back with a
    4xx or 5xx status: every earlier request failed and was slept on once,
    and no request follows it.  A reply with any other status (a 304, say)
    is returned as it is. *)
Theorem http_get_returns_first_passing_reply (url : string) (w : net) (r : response) :
  fst (http_get url w) = Ok r ->
  ~ (400 <= status_code r < 600)
  /\ exists k : nat,
       (k < 3)%nat
       /\ net_reply w (net_gets w + k)%nat url = Ok r
       /\ (forall i, (i < k)%nat ->
             attempt_failure (net_reply w (net_gets w + i)%nat url) <> None)
       /\ net_gets (snd (http_get url w)) = (net_gets w + k + 1)%nat
       /\ net_randoms (snd (http_get url w)) = (net_randoms w + k)%nat.
Proof.
  rewrite http_get_unfold.
  set (w1 := after_failure url 1 w). set (w2 := after_failure url 2 w1).
  destruct (attempt_failure (net_reply w (net_gets w) url)) as [e1|] eqn:H1.
  2: { destruct (http_get_loop_pass 1 [2; 3] url None w H1) as (r0 & Hr0 & ->).
       cbn [fst snd]. intros [= ->].
       destruct (attempt_failure_None _ H1) as (r' & Hr' & Hst).
       assert (r' = r) as -> by congruence.
       split; [done|]. exists 0%nat. rewrite !Nat.add_0_r.
       split; [lia|]. split; [done|]. split; [intros i Hi; lia|].
       cbn [after_reply net_gets net_randoms]. split; lia. }
  rewrite (http_get_loop_fail 1 _ url None w e1 H1). fold w1.
  destruct (attempt_failure (net_reply w1 (net_gets w1) url)) as [e2|] eqn:H2.
  2: { destruct (http_get_loop_pass 2 [3] url (Some e1) w1 H2) as (r0 & Hr0 & ->).
       cbn [fst snd]. intros [= ->].
       destruct (attempt_failure_None _ H2) as (r' & Hr' & Hst).
       assert (r' = r) as -> by congruence.
       split; [done|]. exists 1%nat.
       cbn [w1 after_failure after_reply net_gets net_randoms net_reply] in *.
       rewrite Nat.add_1_r.
       split; [lia|]. split; [done|]. split; [|split; lia].
       intros i Hi. assert (i = 0%nat) as -> by lia. rewrite Nat.add_0_r. congruence. }
  rewrite (http_get_loop_fail 2 _ url _ w1 e2 H2). fold w2.
  destruct (attempt_failure (net_reply w2 (net_gets w2) url)) as [e3|] eqn:H3.
  2: { destruct (http_get_loop_pass 3 [] url (Some e2) w2 H3) as (r0 & Hr0 & ->).
       cbn [fst snd]. intros [= ->].
       destruct (attempt_failure_None _ H3) as (r' & Hr' & Hst).
       assert (r' = r) as -> by congruence.
       split; [done|]. exists 2%nat.
       cbn [w1 w2 after_failure after_reply net_gets net_randoms net_reply] in *.
       replace (net_gets w + 2)%nat with (S (S (net_gets w))) by lia.
       split; [lia|]. split; [done|]. split; [|split; lia].
       intros i Hi. destruct i as [|[|i]]; [| |lia].
       - rewrite Nat.add_0_r. congruence.
       - rewrite Nat.add_1_r. congruence. }
  rewrite (http_get_loop_fail 3 _ url _ w2 e3 H3). cbn [http_get_loop raise fst]. discriminate.
Qed.

Lemma http_get_returns_first_passing_reply_witness :
  ~ (400 <= status_code (Response 200 "<html></html>") < 600)
  /\ exists k : nat,
       (k < 3)%nat
       /\ net_reply live_net (net_gets live_net + k)%nat "https://www.ethiopiantender.com/"
          = Ok (Response 200 "<html></html>")
       /\ (forall i, (i < k)%nat ->
             attempt_failure (net_reply live_net (net_gets live_net + i)%nat
                                "https://www.ethiopiantender.com/") <> None)
       /\ net_gets (snd (http_get "https://www.ethiopiantender.com/" live_net))
          = (net_gets live_net + k + 1)%nat
       /\ net_randoms (snd (http_get "https://www.ethiopiantender.com/" live_net))
          = (net_randoms live_net + k)%nat.
Proof.
  apply (http_get_returns_first_passing_reply "https://www.ethiopiantender.com/" live_net).
  reflexivity.
Defined.

Lemma slept_app (a b : list event) : (slept (a ++ b) == slept a + slept b)%Q.
Proof.
  induction a as [|[u|s] a IH]; cbn [app slept].
  - lra.
  - exact IH.
  - rewrite IH. lra.
Qed.

Lemma slept_after_failure (url : string) (attempt : Z) (w : net) :
  (slept (net_trace (after_failure url attempt w))
   == slept (net_trace w) + (inject_Z (RETRY_BASE_SLEEP * attempt) + net_random w (net_randoms w)))%Q.
Proof. cbn [after_failure net_trace]. rewrite slept_app. cbn [slept]. lra. Qed.

Lemma slept_after_reply (url : string) (w : net) :
  (slept (net_trace (after_reply url w)) == slept (net_trace w))%Q.
Proof. cbn [after_reply net_trace]. rewrite slept_app. cbn [slept]. lra. Qed.

(** X8. With jitters in [0,1), one call of [http_get] sleeps less than
    twenty-one seconds in all; it sleeps at least eighteen when it ends by
    raising, and not at all when the first request passes. *)
Theorem http_get_sleep_budget (url : string) (w : net) :
  (forall i, (0 <= net_random w i)%Q /\ (net_random w i < 1)%Q) ->
  exists delay : Q,
    (slept (net_trace (snd (http_get url w))) == slept (net_trace w) + delay)%Q
    /\ (0 <= delay)%Q /\ (delay < 21)%Q
    /\ (forall e, fst (http_get url w) = Raise e -> (18 <= delay)%Q)
    /\ (attempt_failure (net_reply w (net_gets w) url) = None -> (delay == 0)%Q).
Proof.
  intros Hj. rewrite http_get_unfold.
  set (w1 := after_failure url 1 w). set (w2 := after_failure url 2 w1).
  set (w3 := after_failure url 3 w2).
  pose proof (Hj (net_randoms w)) as [Ha1 Hb1].
  pose proof (Hj (S (net_randoms w))) as [Ha2 Hb2].
  pose proof (Hj (S (S (net_randoms w)))) as [Ha3 Hb3].
  pose proof (slept_after_failure url 1 w) as S1. fold w1 in S1.
  pose proof (slept_after_failure url 2 w1) as S2. fold w2 in S2.
  pose proof (slept_after_failure url 3 w2) as S3. fold w3 in S3.
  cbn [w1 w2 after_failure net_random net_randoms] in S2, S3.
  change (inject_Z (RETRY_BASE_SLEEP * 1)) with 3%Q in S1.
  change (inject_Z (RETRY_BASE_SLEEP * 2)) with 6%Q in S2.
  change (inject_Z (RETRY_BASE_SLEEP * 3)) with 9%Q in S3.
  destruct (attempt_failure (net_reply w (net_gets w) url)) as [e1|] eqn:H1.
  2: { destruct (http_get_loop_pass 1 [2; 3] url None w H1) as (r0 & _ & ->).
       cbn [fst snd]. exists 0%Q. rewrite slept_after_reply.
       split; [lra|]. split; [lra|]. split; [lra|]. split; [discriminate | reflexivity]. }
  rewrite (http_get_loop_fail 1 _ url None w e1 H1). fold w1.
  destruct (attempt_failure (net_reply w1 (net_gets w1) url)) as [e2|] eqn:H2.
  2: { destruct (http_get_loop_pass 2 [3] url (Some e1) w1 H2) as (r0 & _ & ->).
       cbn [fst snd]. exists (3 + net_random w (net_randoms w))%Q.
       rewrite slept_after_reply.
       split; [lra|]. split; [lra|]. split; [lra|]. split; discriminate. }
  rewrite (http_get_loop_fail 2 _ url _ w1 e2 H2). fold w2.
  destruct (attempt_failure (net_reply w2 (net_gets w2) url)) as [e3|] eqn:H3.
  2: { destruct (http_get_loop_pass 3 [] url (Some e2) w2 H3) as (r0 & _ & ->).
       cbn [fst snd].
       exists (3 + net_random w (net_randoms w) + (6 + net_random w (S (net_randoms w))))%Q.
       rewrite slept_after_reply.
       split; [lra|]. split; [lra|]. split; [lra|]. split; discriminate. }
  rewrite (http_get_loop_fail 3 _ url _ w2 e3 H3). fold w3.
  cbn [http_get_loop raise fst snd].
  exists (3 + net_random w (net_randoms w) + (6 + net_random w (S (net_randoms w)))
          + (9 + net_random w (S (S (net_randoms w)))))%Q.
  split; [lra|]. split; [lra|]. split; [lra|]. split; [intros; lra | discriminate].
Qed.

Lemma http_get_sleep_budget_witness :
  exists delay : Q,
    (slept (net_trace (snd (http_get "https://www.ethiopiantender.com/" (dead_net (1 # 2)))))
     == slept (net_trace (dead_net (1 # 2))) + delay)%Q
    /\ (0 <= delay)%Q /\ (delay < 21)%Q
    /\ (forall e, fst (http_get "https://www.ethiopiantender.com/" (dead_net (1 # 2))) = Raise e
                  -> (18 <= delay)%Q)
    /\ (attempt_failure (net_reply (dead_net (1 # 2)) (net_gets (dead_net (1 # 2)))
                           "https://www.ethiopiantender.com/") = None -> (delay == 0)%Q).
Proof.
  apply (http_get_sleep_budget "https://www.ethiopiantender.com/" (dead_net (1 # 2))).
  intros i. cbn [dead_net net_random]. split; [discriminate | reflexivity].
Defined.

(* --------------------------------------------------------------------- *)
(** ** More on the source adapters *)
(* --------------------------------------------------------------------- *)

Lemma get_notice_source (title buyer deadline url source : string) :
  get (notice title buyer deadline url source) "source" "" = source.
Proof.
  unfold get, notice.
  rewrite !(lookup_insert_ne _ _ "source") by done. by rewrite lookup_insert_eq.
Qed.

(** The loop over the anchors as a comprehension: it raises when some
    anchor breaks it, and otherwise appends the notices of the anchors in
    page order. *)
Lemma scan_anchors_eq KW (lib : web) (base source : string) (anchors : list anchor) :
  forall notices,
    (existsb (link_fails lib base) anchors = false ->
     scan_anchors KW lib base source anchors notices
     = Ok (notices ++ flat_map (anchor_notices KW lib base source) anchors)%list)
    /\ (existsb (link_fails lib base) anchors = true ->
        exists e, scan_anchors KW lib base source anchors notices = Raise e).
Proof.
  induction anchors as [|a anchors IH]; intros notices.
  - split; [intros _; cbn; by rewrite app_nil_r | discriminate].
  - cbn [scan_anchors existsb flat_map]. unfold link_fails at 1 3, anchor_notices at 1.
    unfold has_text_and_link.
    destruct (anchor_href a) as [href|].
    2: { rewrite andb_false_r. cbn [andb orb app]. apply IH. }
    destruct (nonempty (anchor_text a)), (nonempty href); cbn [negb orb andb].
    2-4: (destruct (urljoin lib base href); cbn [app orb]; apply IH).
    destruct (urljoin lib base href) as [full|e]; cbn [orb].
    + destruct (Z.ltb_spec (relevant_score KW (anchor_text a)) 1) as [Hlt|Hge].
      * rewrite (proj2 (Z.leb_gt _ _) Hlt). cbn [app]. apply IH.
      * rewrite (proj2 (Z.leb_le _ _) Hge).
        destruct (IH (notices ++ [notice (anchor_text a) "" "" full source])%list) as [IH1 IH2].
        split; [|exact IH2]. intros H. rewrite (IH1 H). by rewrite <- app_assoc.
    + split; [discriminate | intros _; by exists e].
Qed.

Lemma fetch_page_eq KW (lib : web) (base source : string) (w : net) :
  fetch_page KW lib base source w
  = (match fst (http_get base w) with
     | Ok r =>
         match select_anchors lib (text r) with
         | Ok anchors =>
             match scan_anchors KW lib base source anchors [] with
             | Ok notices => Ok notices
             | Raise _ => Ok []
             end
         | Raise _ => Ok []
         end
     | Raise _ => Ok []
     end, snd (http_get base w)).
Proof.
  unfold fetch_page, try_except, bind, lift, ret.
  destruct (http_get base w) as [[r|e] w1]; cbn [fst snd]; [|reflexivity].
  destruct (select_anchors lib (text r)) as [anchors|e]; [|reflexivity].
  by destruct (scan_anchors KW lib base source anchors []).
Qed.

Lemma adapters_are_fetch_page :
  Forall (fun '(fetch, base, source) => forall KW lib, fetch KW lib = fetch_page KW lib base source)
         adapters.
Proof. repeat constructor. Qed.

(** X9. An adapter is all or nothing on its page: if a single anchor with
    text and link has a link that [urljoin] refuses, the adapter returns the
    empty list, dropping the notices of every other anchor of the page,
    those before it included; and the anchor need not mention a keyword,
    for the link is resolved before the text is scored. *)
Theorem adapter_all_or_nothing :
  Forall (fun '(fetch, base, source) =>
            forall KW (lib : web) (w : net) (r : response) (anchors : list anchor) (a : anchor),
              fst (http_get base w) = Ok r ->
              select_anchors lib (text r) = Ok anchors ->
              a ∈ anchors ->
              link_fails lib base a = true ->
              fst (fetch KW lib w) = Ok [])
         adapters.
Proof.
  assert (H : forall base source KW (lib : web) (w : net) r anchors a,
             fst (http_get base w) = Ok r ->
             select_anchors lib (text r) = Ok anchors ->
             a ∈ anchors ->
             link_fails lib base a = true ->
             fst (fetch_page KW lib base source w) = Ok []).
  { intros base source KW lib w r anchors a Hget Hsel Ha Hbad.
    rewrite fetch_page_eq, Hget, Hsel. cbn [fst].
    destruct (proj2 (scan_anchors_eq KW lib base source anchors [])) as [e ->]; [|done].
    apply existsb_exists. exists a. split; [by apply list_elem_of_In | done]. }
  repeat constructor; intros; by eapply H.
Qed.

Lemma adapter_all_or_nothing_witness :
  fst (fetch_ethiopian_tender_com scenario_keywords brittle_web live_net) = Ok [].
Proof.
  apply (Forall_inv adapter_all_or_nothing scenario_keywords brittle_web live_net
           (Response 200 "<html></html>")
           [ Anchor "ERP System Tender" (Some "t/1"); Anchor "Contact" (Some "http://[bad") ]
           (Anchor "Contact" (Some "http://[bad")));
    [reflexivity | reflexivity | | reflexivity].
  apply list_elem_of_In. right. by left.
Defined.

(** X10. When the page is fetched and parsed and every link of an anchor
    with text and link resolves, an adapter returns, in page order, one
    notice for each such anchor whose text scores at least one: its title is
    the anchor's text, its link the resolved link, its buyer and deadline
    are empty and its source is the adapter's tag. *)
Theorem adapter_output :
  Forall (fun '(fetch, base, source) =>
            forall KW (lib : web) (w : net) (r : response) (anchors : list anchor),
              fst (http_get base w) = Ok r ->
              select_anchors lib (text r) = Ok anchors ->
              existsb (link_fails lib base) anchors = false ->
              fst (fetch KW lib w)
              = Ok (flat_map (anchor_notices KW lib base source) anchors))
         adapters.
Proof.
  assert (H : forall base source KW (lib : web) (w : net) r anchors,
             fst (http_get base w) = Ok r ->
             select_anchors lib (text r) = Ok anchors ->
             existsb (link_fails lib base) anchors = false ->
             fst (fetch_page KW lib base source w)
             = Ok (flat_map (anchor_notices KW lib base source) anchors)).
  { intros base source KW lib w r anchors Hget Hsel Hok.
    rewrite fetch_page_eq, Hget, Hsel. cbn [fst].
    by rewrite (proj1 (scan_anchors_eq KW lib base source anchors []) Hok). }
  repeat constructor; intros; by eapply H.
Qed.

Lemma adapter_output_witness :
  fst (fetch_ethiopian_tender_com scenario_keywords sample_web live_net)
  = Ok (flat_map (anchor_notices scenario_keywords sample_web
                    "https://www.ethiopiantender.com/" "EthiopianTender.com")
          [ Anchor "ERP System Tender" (Some "t/1"); Anchor "Office Chairs" (Some "t/2");
            Anchor "" (Some "t/3"); Anchor "Web portal" None ]).
Proof.
  apply (Forall_inv adapter_output scenario_keywords sample_web live_net
           (Response 200 "<html></html>")); reflexivity.
Defined.

Lemma http_get_keeps_oracles (url : string) (w : net) :
  net_reply (snd (http_get url w)) = net_reply w
  /\ net_random (snd (http_get url w)) = net_random w.
Proof.
  destruct (http_get_cases url w) as [(r & ->) | [(r & ->) | [(r & ->) | (e & -> & _)]]];
    by cbn [snd after_reply after_failure net_reply net_random].
Qed.

Lemma http_get_all_fail (url : string) (w : net) :
  (forall i, attempt_failure (net_reply w i url) <> None) ->
  exists e, fst (http_get url w) = Raise e
            /\ net_gets (snd (http_get url w)) = (net_gets w + 3)%nat.
Proof.
  intros Hall. rewrite http_get_unfold.
  destruct (attempt_failure (net_reply w (net_gets w) url)) as [e1|] eqn:H1;
    [|by destruct (Hall (net_gets w))].
  rewrite (http_get_loop_fail 1 _ url None w e1 H1).
  destruct (attempt_failure (net_reply w (S (net_gets w)) url)) as [e2|] eqn:H2;
    [|by destruct (Hall (S (net_gets w)))].
  rewrite (http_get_loop_fail 2 _ url _ (after_failure url 1 w) e2 H2).
  destruct (attempt_failure (net_reply w (S (S (net_gets w))) url)) as [e3|] eqn:H3;
    [|by destruct (Hall (S (S (net_gets w))))].
  rewrite (http_get_loop_fail 3 _ url _ (after_failure url 2 (after_failure url 1 w)) e3 H3).
  exists e3. cbn [http_get_loop raise fst snd after_failure net_gets]. split; [reflexivity | lia].
Qed.

(** X11. One round over the two adapters makes between two and six
    requests.  On a network where every request fails or is answered with
    a 4xx or 5xx status it makes all six, both adapters return the empty
    list, and the cycle fed by them looks at nothing and returns nothing. *)
Theorem sources_network_use KW (lib : web) (w : net) :
  let r := call_all (SOURCES KW lib) w in
  (net_gets w + 2 <= net_gets (snd r) <= net_gets w + 6)%nat
  /\ ((forall i url, attempt_failure (net_reply w i url) <> None) ->
      fst r = [Ok []; Ok []]
      /\ net_gets (snd r) = (net_gets w + 6)%nat
      /\ forall clock file, fst (run_cycle KW (fst r) clock file) = ([], 0)).
Proof.
  intros r. subst r. unfold SOURCES, fetch_ethiopian_tender_com, fetch_globaltenders_et_sw.
  cbn [call_all].
  set (u1 := "https://www.ethiopiantender.com/").
  set (u2 := "https://www.globaltenders.com/ethiopia/et-software-tenders").
  rewrite (fetch_page_eq KW lib u1 "EthiopianTender.com" w).
  set (w1 := snd (http_get u1 w)).
  rewrite (fetch_page_eq KW lib u2 "GlobalTenders (ET Software)" w1).
  cbn [fst snd].
  pose proof (http_get_at_most_three u1 w) as G1. fold w1 in G1.
  pose proof (http_get_at_most_three u2 w1) as G2.
  split; [lia|].
  intros Hall.
  destruct (http_get_all_fail u1 w (fun i => Hall i u1)) as (e1 & -> & N1). fold w1 in N1.
  assert (Hall1 : forall i, attempt_failure (net_reply w1 i u2) <> None).
  { intros i. unfold w1. rewrite (proj1 (http_get_keeps_oracles u1 w)). apply Hall. }
  destruct (http_get_all_fail u2 w1 Hall1) as (e2 & -> & N2).
  split; [reflexivity|]. split; [lia|].
  intros clock file. by rewrite run_cycle_eq.
Qed.

Lemma sources_network_use_witness :
  fst (call_all (SOURCES scenario_keywords sample_web) (dead_net 0)) = [Ok []; Ok []]
  /\ net_gets (snd (call_all (SOURCES scenario_keywords sample_web) (dead_net 0)))
     = (net_gets (dead_net 0) + 6)%nat
  /\ forall clock file,
       fst (run_cycle scenario_keywords
              (fst (call_all (SOURCES scenario_keywords sample_web) (dead_net 0))) clock file)
       = ([], 0).
Proof.
  apply (proj2 (sources_network_use scenario_keywords sample_web (dead_net 0))).
  intros i url. discriminate.
Defined.

Lemma scan_anchors_shape KW (lib : web) (base source : string)
    (P : gmap string string -> Prop) :
  (forall a href full,
     anchor_href a = Some href -> urljoin lib base href = Ok full ->
     nonempty (anchor_text a) = true -> 1 <= relevant_score KW (anchor_text a) ->
     P (notice (anchor_text a) "" "" full source)) ->
  forall anchors notices out,
    Forall P notices ->
    scan_anchors KW lib base source anchors notices = Ok out ->
    Forall P out.
Proof.
  intros HP. induction anchors as [|a anchors IH]; intros notices out Hacc.
  - cbn. by intros [= <-].
  - cbn [scan_anchors].
    destruct (anchor_href a) as [href|] eqn:Hhref; [|by apply IH].
    destruct (nonempty (anchor_text a)) eqn:Htext; cbn [negb orb]; [|by apply IH].
    destruct (nonempty href); cbn [negb]; [|by apply IH].
    destruct (urljoin lib base href) as [full|e] eqn:Hjoin; [|discriminate].
    destruct (Z.ltb_spec (relevant_score KW (anchor_text a)) 1) as [|Hge]; [by apply IH|].
    apply IH. apply Forall_app. split; [done|].
    constructor; [|constructor]. by eapply HP.
Qed.

(** X22. An adapter never raises, and every notice it returns is built
    from an anchor's non-empty text and resolved link alone: buyer and
    deadline are the empty text and the source is the adapter's tag.  So
    its fingerprint depends on title and link only, and its row in the
    digest shows no buyer and an empty deadline; the 'N/A' of the format
    never appears for it. *)
Theorem adapter_notice_shape :
  Forall (fun '(fetch, base, source) =>
            forall KW (lib : web) (w : net),
            exists out,
              fst (fetch KW lib w) = Ok out
              /\ Forall (fun n =>
                   exists title url,
                     n = notice title "" "" url source
                     /\ nonempty title = true
                     /\ notice_uid n = uid_hash title "" "" url
                     /\ format_row n
                        = ("<li><b>" +:+ title +:+ "</b>")
                          +:+ " — deadline: <br><a href='" +:+ url +:+ "'>" +:+ url
                          +:+ "</a> <i>(" +:+ source +:+ ")</i></li>") out)
         adapters.
Proof.
  assert (H : forall base source KW (lib : web) (w : net),
             exists out,
               fst (fetch_page KW lib base source w) = Ok out
               /\ Forall (fun n =>
                    exists title url,
                      n = notice title "" "" url source
                      /\ nonempty title = true
                      /\ notice_uid n = uid_hash title "" "" url
                      /\ format_row n
                         = ("<li><b>" +:+ title +:+ "</b>")
                           +:+ " — deadline: <br><a href='" +:+ url +:+ "'>" +:+ url
                           +:+ "</a> <i>(" +:+ source +:+ ")</i></li>") out).
  { intros base source KW lib w. rewrite fetch_page_eq. cbn [fst].
    destruct (fst (http_get base w)) as [r|]; [|by exists []].
    destruct (select_anchors lib (text r)) as [anchors|]; [|by exists []].
    destruct (scan_anchors KW lib base source anchors []) as [out|] eqn:Hscan;
      [|by exists []].
    exists out. split; [reflexivity|].
    refine (scan_anchors_shape KW lib base source _ _ anchors [] out _ Hscan);
      [|constructor].
    intros a href full _ _ Htext _. exists (anchor_text a), full.
    split; [reflexivity|]. split; [exact Htext|]. split; [apply notice_uid_notice|].
    unfold format_row, get, notice.
    rewrite lookup_insert_eq.
    rewrite !(lookup_insert_ne _ _ "buyer") by done. rewrite lookup_insert_eq.
    rewrite !(lookup_insert_ne _ _ "deadline") by done. rewrite lookup_insert_eq.
    rewrite !(lookup_insert_ne _ _ "url") by done. rewrite lookup_insert_eq.
    rewrite !(lookup_insert_ne _ _ "source") by done. rewrite lookup_insert_eq.
    reflexivity. }
  repeat constructor; intros; apply H.
Qed.

(* --------------------------------------------------------------------- *)
(** ** More on the run cycle *)
(* --------------------------------------------------------------------- *)

Lemma occurrences_filter (f : gmap string string -> bool) (n : gmap string string)
    (l : list (gmap string string)) :
  occurrences n (List.filter f l) = if f n then occurrences n l else 0%nat.
Proof.
  unfold occurrences. induction l as [|m l IH]; cbn [List.filter].
  - by destruct (f n).
  - destruct (f m) eqn:Hm; cbn [List.filter].
    + destruct (bool_decide (m = n)) eqn:Hmn; cbn [length]; rewrite IH.
      * apply bool_decide_eq_true in Hmn as ->. by rewrite Hm.
      * reflexivity.
    + rewrite IH. destruct (bool_decide (m = n)) eqn:Hmn; [|reflexivity].
      apply bool_decide_eq_true in Hmn as ->. by rewrite Hm.
Qed.

(** X12. Within one cycle nothing is deduplicated: a candidate whose
    fingerprint was not in the loaded state and whose title and link score
    is returned as many times as the adapters emitted it, because the set of
    seen fingerprints is built once, before the loop. *)
Theorem run_cycle_repeats_duplicates KW (outs : list (result (list (gmap string string))))
    (clock : nat -> Z) (file : state_file) (n : gmap string string) :
  occurrences n (fst (fst (run_cycle KW outs clock file)))
  = if decide (notice_uid n ∈ dom (load_state file)) then 0%nat
    else if decide (1 <= relevant_score KW (text_blob n))
         then occurrences n (items_of outs)
         else 0%nat.
Proof.
  rewrite run_cycle_eq. cbn [fst]. rewrite occurrences_filter. unfold accepts.
  destruct (decide (notice_uid n ∈ dom (load_state file))) as [Hin|Hout].
  - by rewrite (bool_decide_eq_true_2 _ Hin).
  - rewrite (bool_decide_eq_false_2 _ Hout). cbn [negb andb].
    destruct (decide (1 <= relevant_score KW (text_blob n))) as [Hs|Hs].
    + by rewrite (proj2 (Z.leb_le _ _) Hs).
    + rewrite (proj2 (Z.leb_gt _ _)); [reflexivity | lia].
Qed.

Example same_listing_from_both_adapters :
  length (fst (fst (run_cycle scenario_keywords
                      [ Ok [erp_notice "EthiopianTender.com"];
                        Ok [erp_notice "GlobalTenders (ET Software)"] ]
                      (fun _ => 1700000000) Absent))) = 2%nat
  /\ notice_uid (erp_notice "EthiopianTender.com")
     = notice_uid (erp_notice "GlobalTenders (ET Software)").
Proof. split; vm_compute; reflexivity. Qed.

Lemma filter_sublist {A} (f : A -> bool) (l : list A) : sublist (List.filter f l) l.
Proof.
  induction l as [|x l IH]; [constructor|]. cbn [List.filter].
  destruct (f x); [by apply sublist_skip | by apply sublist_cons].
Qed.

(** X13. The notices a cycle returns are a sublist of the candidates, in
    their order: nothing is invented, reordered or merged.  The count returned with them is the number of
    candidates of the fetchers that returned, the ones skipped as seen or
    as irrelevant included, so it is never less than the number of
    notices. *)
Theorem run_cycle_returns_sublist KW (outs : list (result (list (gmap string string))))
    (clock : nat -> Z) (file : state_file) :
  sublist (fst (fst (run_cycle KW outs clock file))) (items_of outs)
  /\ snd (fst (run_cycle KW outs clock file)) = Z.of_nat (length (items_of outs))
  /\ Z.of_nat (length (fst (fst (run_cycle KW outs clock file))))
     <= snd (fst (run_cycle KW outs clock file)).
Proof.
  rewrite run_cycle_eq. cbn [fst snd].
  split; [apply filter_sublist|]. split; [reflexivity|].
  apply inj_le, sublist_length, filter_sublist.
Qed.

Lemma relevant_score_app_r (KW : gset string) (a b : string) :
  relevant_score KW b <= relevant_score KW (a +:+ b).
Proof.
  unfold relevant_score. rewrite lower_app.
  apply inj_le.
  induction (elements KW) as [|k l IH]; simpl; [lia|].
  destruct (contains k (lower b)) eqn:E.
  - rewrite (contains_app_r _ (lower a) _ E). simpl. lia.
  - destruct (contains k (lower a +:+ lower b)); simpl; lia.
Qed.

(** X14. The cycle scores the title and the link together: a candidate
    whose fingerprint is new is returned as soon as its link alone mentions
    a keyword, whatever its title. *)
Theorem run_cycle_accepts_link_hits KW (outs : list (result (list (gmap string string))))
    (clock : nat -> Z) (file : state_file) (n : gmap string string) :
  n ∈ items_of outs ->
  notice_uid n ∉ dom (load_state file) ->
  1 <= relevant_score KW (get n "url" "") ->
  n ∈ fst (fst (run_cycle KW outs clock file)).
Proof.
  intros Hn Hnew Hs. rewrite run_cycle_eq. cbn [fst]. apply accepted_spec.
  split; [done|]. split; [done|]. unfold text_blob.
  pose proof (relevant_score_app_r KW " " (get n "url" "")) as H1.
  pose proof (relevant_score_app_r KW (get n "title" "") (" " +:+ get n "url" "")) as H2.
  lia.
Qed.

Lemma run_cycle_accepts_link_hits_witness :
  notice "Office Chairs" "" "" "http://x/software/2" "EthiopianTender.com"
  ∈ fst (fst (run_cycle (list_to_set ["software"])
                [Ok [notice "Office Chairs" "" "" "http://x/software/2" "EthiopianTender.com"]]
                (fun _ => 1700000000) Absent)).
Proof.
  apply run_cycle_accepts_link_hits.
  - apply list_elem_of_In. by left.
  - cbn [load_state]. rewrite dom_empty_L. apply not_elem_of_empty.
  - rewrite get_notice_url. vm_compute. discriminate.
Defined.

(** X15. A cycle that accepts nothing only trims: the stored state is the
    loaded one without the entries older than ninety days, and it is the
    loaded state itself when no entry is that old. *)
Theorem idle_cycle_only_trims KW (outs : list (result (list (gmap string string))))
    (clock : nat -> Z) (file : state_file) :
  fst (fst (run_cycle KW outs clock file)) = [] ->
  snd (run_cycle KW outs clock file)
  = Stored (filter (fun kv => clock 0%nat - RETENTION <= kv.2) (load_state file))
  /\ ((forall k v, load_state file !! k = Some v -> clock 0%nat - RETENTION <= v) ->
      snd (run_cycle KW outs clock file) = Stored (load_state file)).
Proof.
  rewrite run_cycle_eq. cbn [fst snd]. intros ->. cbn [length stamp].
  split; [reflexivity|]. intros Hall. f_equal. apply map_eq. intros k.
  destruct (load_state file !! k) as [v|] eqn:Hk.
  - apply trim_lookup. split; [done | by eapply Hall].
  - apply trim_lookup_None. intros v Hv. congruence.
Qed.

Lemma idle_cycle_only_trims_witness :
  snd (run_cycle scenario_keywords [Ok [chairs_notice "EthiopianTender.com"]]
         (fun _ => 1700000000) (Stored {[ "aa" := 1699990000 ]}))
  = Stored {[ "aa" := 1699990000 ]}.
Proof.
  refine (proj2 (idle_cycle_only_trims scenario_keywords
                   [Ok [chairs_notice "EthiopianTender.com"]]
                   (fun _ => 1700000000) (Stored {[ "aa" := 1699990000 ]}) _) _).
  - rewrite run_cycle_eq. cbn [fst items_of flat_map app List.filter].
    by rewrite scenario_accepts_chairs.
  - cbn [load_state]. intros k v Hk.
    apply lookup_singleton_Some in Hk as [_ <-]. unfold RETENTION. lia.
Defined.

(* --------------------------------------------------------------------- *)
(** ** More on the heartbeat *)
(* --------------------------------------------------------------------- *)

(** X16. The heartbeat hour is taken in the local time of the process: when
    the heartbeat is enabled and every step of the SMTP session succeeds, a
    call returns true exactly when the current time has reached the configured
    hour of the current UTC date less the zone's offset from UTC, and the
    last heartbeat on record precedes that instant. *)
Theorem heartbeat_in_any_zone (cfg : config) (utc_offset now : Z) (w : world) :
  HEARTBEAT_ENABLE cfg = true ->
  fst (maybe_send_heartbeat cfg utc_offset now smtp_ok w) = Ok true
  <-> utc_target cfg now - utc_offset <= now
      /\ last_heartbeat w < utc_target cfg now - utc_offset.
Proof.
  intros Hen. rewrite maybe_send_heartbeat_eq, session_outcome_ok, Hen. cbn [andb].
  destruct (Z.leb_spec (utc_target cfg now - utc_offset) now) as [Hle|Hgt];
    [destruct (Z.ltb_spec (last_heartbeat w) (utc_target cfg now - utc_offset)) as [Hlt|Hge]|];
    cbn [andb].
  - destruct (can_send cfg); cbn [fst]; tauto.
  - cbn [fst]. split; [discriminate | lia].
  - cbn [fst]. split; [discriminate | lia].
Qed.

Lemma heartbeat_in_any_zone_witness :
  fst (maybe_send_heartbeat (sample_config true) 10800 1699934400 smtp_ok (World Absent []))
  = Ok true
  <-> utc_target (sample_config true) 1699934400 - 10800 <= 1699934400
      /\ last_heartbeat (World Absent []) < utc_target (sample_config true) 1699934400 - 10800.
Proof. apply heartbeat_in_any_zone. reflexivity. Defined.


Lemma utc_target_same_day (cfg : config) (now now' : Z) :
  utc_day now' = utc_day now -> utc_target cfg now' = utc_target cfg now.
Proof. unfold utc_target. by intros ->. Qed.



(** X18. A mark left on an earlier UTC day never blocks today's heartbeat:
    with the heartbeat enabled, a zone offset of at most the configured
    hour and a working SMTP session, a call made once today's target is
    reached returns true when the last heartbeat on record is older than
    the start of today. *)
Theorem heartbeat_due_every_day (cfg : config) (utc_offset now : Z) (w : world) :
  HEARTBEAT_ENABLE cfg = true ->
  utc_offset <= 3600 * HEARTBEAT_HOUR_UTC cfg ->
  last_heartbeat w < 86400 * utc_day now ->
  utc_target cfg now - utc_offset <= now ->
  fst (maybe_send_heartbeat cfg utc_offset now smtp_ok w) = Ok true
  /\ last_heartbeat (snd (maybe_send_heartbeat cfg utc_offset now smtp_ok w)) = now.
Proof.
  intros Hen Hoff Hlast Hdue. rewrite maybe_send_heartbeat_eq, session_outcome_ok, Hen.
  cbn [andb].
  rewrite (proj2 (Z.leb_le _ _) Hdue). cbn [andb].
  rewrite (proj2 (Z.ltb_lt _ _)) by (unfold utc_target; lia).
  unfold last_heartbeat.
  destruct (can_send cfg); cbn [fst snd w_file load_state]; by rewrite lookup_insert_eq.
Qed.

Lemma heartbeat_due_every_day_witness :
  fst (maybe_send_heartbeat (sample_config true) 0 1700000000 smtp_ok
         (World (Stored {[ HEARTBEAT_KEY := 1699900000 ]}) [])) = Ok true
  /\ last_heartbeat (snd (maybe_send_heartbeat (sample_config true) 0 1700000000 smtp_ok
                            (World (Stored {[ HEARTBEAT_KEY := 1699900000 ]}) [])))
     = 1700000000.
Proof.
  apply heartbeat_due_every_day;
    [reflexivity | vm_compute; discriminate | vm_compute; reflexivity
     | vm_compute; discriminate].
Defined.

(* --------------------------------------------------------------------- *)
(** ** The whole run *)
(* --------------------------------------------------------------------- *)

(** [main] by cases on what the cycle found. *)
Lemma main_eq (cfg : config) KW outs (clock : nat -> Z) (utc_offset : Z)
    (smtp : smtp_session) (w : world) :
  let r := run_cycle KW outs clock (w_file w) in
  main cfg KW outs clock utc_offset smtp w
  = match fst (fst r) with
    | _ :: _ =>
        (fst (send_email cfg smtp (fst (format_email (fst (fst r)) (snd (fst r))))
                         (snd (format_email (fst (fst r)) (snd (fst r)))) (w_outbox w)),
         World (snd r)
               (snd (send_email cfg smtp (fst (format_email (fst (fst r)) (snd (fst r))))
                                (snd (format_email (fst (fst r)) (snd (fst r)))) (w_outbox w))))
    | [] =>
        (match fst (maybe_send_heartbeat cfg utc_offset (clock 1%nat) smtp
                      (World (snd r) (w_outbox w))) with
         | Ok _ => Ok tt
         | Raise e => Raise e
         end,
         snd (maybe_send_heartbeat cfg utc_offset (clock 1%nat) smtp
                (World (snd r) (w_outbox w))))
    end.
Proof.
  intros r. subst r. unfold main.
  destruct (run_cycle KW outs clock (w_file w)) as [[new checked] file]. cbn [fst snd].
  destruct new as [|n new].
  - cbn [format_email length].
    by destruct (maybe_send_heartbeat cfg utc_offset (clock 1%nat) smtp (World file (w_outbox w))).
  - destruct (format_email (n :: new) checked) as [subject html]. cbn [fst snd].
    by destruct (send_email cfg smtp subject html (w_outbox w)).
Qed.




Lemma run_cycle_keeps_mark KW outs (clock : nat -> Z) (file : state_file)
    (outbox outbox' : list email) :
  clock (length (fst (fst (run_cycle KW outs clock file)))) - RETENTION
    <= last_heartbeat (World file outbox) ->
  last_heartbeat (World (snd (run_cycle KW outs clock file)) outbox')
  = last_heartbeat (World file outbox).
Proof.
  unfold last_heartbeat. rewrite run_cycle_eq. cbn [fst snd w_file load_state].
  set (acc := List.filter _ _). intros Hcut.
  destruct (load_state file !! HEARTBEAT_KEY) as [v|] eqn:Hv; cbn [default] in *.
  - rewrite (proj2 (trim_lookup _ _ HEARTBEAT_KEY v)); [reflexivity|].
    split; [by apply stamp_seen | done].
  - rewrite (proj2 (trim_lookup_None _ _ HEARTBEAT_KEY)); [reflexivity|].
    intros v' Hv'.
    destruct (stamp_lookup clock HEARTBEAT_KEY acc 0 (load_state file))
      as [[Heq _] | (j & n & _ & Hn & _)].
    + congruence.
    + by destruct (notice_uid_not_heartbeat n).
Qed.

Lemma digest_is_not_heartbeat (cfg : config) (n : gmap string string)
    (ns : list (gmap string string)) (checked : Z) :
  digest_mail cfg (n :: ns) checked <> heartbeat_mail cfg.
Proof.
  unfold digest_mail, heartbeat_mail. cbn [format_email fst snd]. intros H.
  injection H as Hsubject _. apply (f_equal String.length) in Hsubject.
  rewrite !length_app_str in Hsubject. cbn [String.length] in Hsubject. lia.
Qed.

Lemma heartbeats_in_snoc (cfg : config) (outbox : list email) (m : email) :
  heartbeats_in cfg (outbox ++ [m])
  = (heartbeats_in cfg outbox + if bool_decide (m = heartbeat_mail cfg) then 1 else 0)%nat.
Proof.
  unfold heartbeats_in. rewrite List.filter_app, length_app. cbn [List.filter].
  by destruct (bool_decide (m = heartbeat_mail cfg)).
Qed.

Lemma utc_day_bounds (now day : Z) : utc_day now = day -> 86400 * day <= now < 86400 * day + 86400.
Proof. unfold utc_day. intros <-. Z.div_mod_to_equations. lia. Qed.

Lemma late_failures_cons outs (clock : nat -> Z) (smtp : smtp_session)
    (runs : list (list (result (list (gmap string string))) * (nat -> Z) * smtp_session)) :
  late_failures ((outs, clock, smtp) :: runs)
  = ((if late_failure smtp then 1 else 0) + late_failures runs)%nat.
Proof. unfold late_failures. cbn [List.filter]. by destruct (late_failure smtp). Qed.

(** One run on a day: it sends no heartbeat once today's target is covered
    by a mark made today; otherwise it sends at most one, and leaves such
    a mark unless its session raised after the server took the message. *)
Lemma main_heartbeat_step (cfg : config) KW outs (clock : nat -> Z) (utc_offset day : Z)
    (smtp : smtp_session) (w : world) :
  (forall i, utc_day (clock i) = day) ->
  let T := 86400 * day + 3600 * HEARTBEAT_HOUR_UTC cfg - utc_offset in
  let covered := fun w => T <= last_heartbeat w /\ 86400 * day <= last_heartbeat w in
  let w' := snd (main cfg KW outs clock utc_offset smtp w) in
  (covered w -> covered w' /\ heartbeats_in cfg (w_outbox w') = heartbeats_in cfg (w_outbox w))
  /\ (heartbeats_in cfg (w_outbox w') = heartbeats_in cfg (w_outbox w)
      \/ (heartbeats_in cfg (w_outbox w') = S (heartbeats_in cfg (w_outbox w))
          /\ (covered w' \/ late_failure smtp = true))).
Proof.
  intros Hday T covered w'. subst w'. rewrite main_eq.
  set (r := run_cycle KW outs clock (w_file w)).
  assert (HT : forall i, utc_target cfg (clock i) - utc_offset = T).
  { intros i. unfold utc_target. by rewrite Hday. }
  assert (Hkeep : covered w ->
                  forall ob, last_heartbeat (World (snd r) ob) = last_heartbeat w).
  { intros [_ Hlo] ob. destruct w as [file outbox]. unfold r. cbn [w_file].
    apply run_cycle_keeps_mark.
    pose proof (utc_day_bounds _ _ (Hday (length (fst (fst (run_cycle KW outs clock file)))))).
    unfold RETENTION. lia. }
  destruct (fst (fst r)) as [|n ns] eqn:Hnew.
  - cbn [snd].
    pose proof (heartbeat_step cfg utc_offset (clock 1%nat) smtp (World (snd r) (w_outbox w)))
      as Hstep. cbn zeta in Hstep. rewrite HT in Hstep.
    set (w1 := snd (maybe_send_heartbeat cfg utc_offset (clock 1%nat) smtp
                      (World (snd r) (w_outbox w)))) in *.
    cbn [w_file w_outbox] in Hstep.
    split.
    + intros Hcov. pose proof (Hkeep Hcov (w_outbox w)) as Hl.
      destruct Hstep as [[Hf Ho] | (Hle & Hlt & _)].
      * assert (last_heartbeat w1 = last_heartbeat w) as Hl1.
        { rewrite <- Hl. unfold last_heartbeat. by rewrite Hf. }
        unfold covered. rewrite Hl1, Ho. by split.
      * rewrite Hl in Hlt. destruct Hcov. lia.
    + destruct Hstep as [[Hf Ho] | (Hle & Hlt & [[Hlast [Ho|Ho]] | (_ & Hlate & Ho)])].
      * left. by rewrite Ho.
      * left. by rewrite Ho.
      * right. rewrite Ho, heartbeats_in_snoc, bool_decide_eq_true_2 by done.
        split; [lia|]. left. unfold covered. rewrite Hlast.
        pose proof (utc_day_bounds _ _ (Hday 1%nat)). lia.
      * right. rewrite Ho, heartbeats_in_snoc, bool_decide_eq_true_2 by done.
        split; [lia | by right].
  - cbn [snd w_outbox]. rewrite send_email_eq.
    fold (digest_mail cfg (n :: ns) (snd (fst r))).
    assert (Hob : heartbeats_in cfg
                    (snd (if can_send cfg
                          then (session_outcome smtp,
                                if accepted smtp
                                then (w_outbox w ++ [digest_mail cfg (n :: ns) (snd (fst r))])%list
                                else w_outbox w)
                          else (Ok tt, w_outbox w)))
                  = heartbeats_in cfg (w_outbox w)).
    { destruct (can_send cfg); [destruct (accepted smtp)|]; cbn [snd]; try reflexivity.
      rewrite heartbeats_in_snoc, bool_decide_eq_false_2; [lia|].
      apply digest_is_not_heartbeat. }
    split; [|by left].
    intros Hcov. split; [|exact Hob].
    unfold covered. by rewrite (Hkeep Hcov).
Qed.



(** The bound is reached: after two runs whose sessions fail at QUIT, a
    third run of the same day mails the third heartbeat. *)
Example three_heartbeats_in_a_day :
  let runs := [ ([Ok []], (fun _ : nat => 1700000000), smtp_quit_fails);
                ([Ok []], (fun _ : nat => 1700000600), smtp_quit_fails);
                ([Ok []], (fun _ : nat => 1700001200), smtp_ok) ] in
  heartbeats_in (sample_config true)
    (w_outbox (main_runs (sample_config true) scenario_keywords 0 runs (World Absent [])))
  = 3%nat
  /\ late_failures runs = 2%nat.
Proof. split; vm_compute; reflexivity. Qed.
